(** * note-reader: a shallow embedding of [app.py]

    The development follows the layout of the program:
    - Python strings, [str.join], [pathlib] path parsing;
    - exceptions and the state the program threads (the [NoteReader]
      object, the directory tree, the log of calls to external services);
    - [load_any_notes], the [NoteReader] methods and the module start-up;
    - the chunker of the specification (the program obtains its chunker
      from a third-party package, so that part follows the specification);
    - the properties. *)

From Stdlib Require Import List String Ascii Arith Bool Lia.
Import ListNotations.

Local Open Scope string_scope.
Local Open Scope list_scope.
Local Open Scope nat_scope.

Infix "+:+" := String.append (at level 60, right associativity).

(* ================================================================= *)
(** ** Python strings *)

(** The line feed, written [\n] in the Python literals. *)
Definition nl : string := String (ascii_of_nat 10) EmptyString.

(** [sep.join(parts)]. *)
Definition str_join (sep : string) (parts : list string) : string :=
  String.concat sep parts.

(** The first [n] units of [s]; this is [s[:n]] on a text whose
    characters are one unit each. *)
Definition str_take (n : nat) (s : string) : string := substring 0 n s.

(** A string holds the UTF-8 text of a Python [str]: a character is a
    unit that is not a continuation byte (not of the form [10xxxxxx]),
    followed by its continuation bytes. *)
Definition is_continuation (c : ascii) : bool :=
  match c with
  | Ascii _ _ _ _ _ _ b6 b7 => b7 && negb b6
  end.

(** [len(s)]: the number of characters. *)
Fixpoint count_chars (s : string) : nat :=
  match s with
  | EmptyString => 0
  | String c s' => if is_continuation c then count_chars s' else S (count_chars s')
  end.

(** [s[:n]]: the first [n] characters, each with its continuation
    bytes. *)
Fixpoint take_chars (n : nat) (s : string) : string :=
  match s with
  | EmptyString => EmptyString
  | String c s' =>
      if is_continuation c then String c (take_chars n s')
      else match n with
           | 0 => EmptyString
           | S n' => String c (take_chars n' s')
           end
  end.

(** [s.split(c)] for a one-character separator: the fields between the
    occurrences of [c]; there is always at least one field. *)
Fixpoint split_on_char (c : ascii) (s : string) : list string :=
  match s with
  | EmptyString => [EmptyString]
  | String a s' =>
      if Ascii.eqb a c then EmptyString :: split_on_char c s'
      else match split_on_char c s' with
           | [] => [String a EmptyString]
           | f :: fs => String a f :: fs
           end
  end.

(** [c in s]. *)
Fixpoint str_contains_char (c : ascii) (s : string) : bool :=
  match s with
  | EmptyString => false
  | String a s' => Ascii.eqb a c || str_contains_char c s'
  end.

(** [name.endswith(suffix)]. *)
Definition str_ends_with (suffix name : string) : bool :=
  (String.length suffix <=? String.length name) &&
  String.eqb
    (substring (String.length name - String.length suffix)
               (String.length suffix) name)
    suffix.

(* ================================================================= *)
(** ** pathlib *)

(** A path relative to the working directory is the list of its
    components. [Path(s)] drops empty components and ["."] components;
    this is [PurePosixPath] parsing, the root marker left out since only
    [parts] and [name] are used by the program. *)
Definition path := list string.

Definition is_real_component (c : string) : bool :=
  negb (String.eqb c "") && negb (String.eqb c ".").

Definition Path (s : string) : path :=
  filter is_real_component (split_on_char "/" s).

(** [Path(s).name]: the final component, [""] when there is none. *)
Definition Path_name (s : string) : string := last (Path s) "".

(** [str(p)]. *)
Definition path_str (p : path) : string :=
  match p with
  | [] => "."
  | _ => str_join "/" p
  end.

Fixpoint path_eqb (p q : path) : bool :=
  match p, q with
  | [], [] => true
  | a :: p', b :: q' => String.eqb a b && path_eqb p' q'
  | _, _ => false
  end.

(** [dir] is a strict ancestor of [p]. *)
Fixpoint strictly_under (dir p : path) : bool :=
  match dir, p with
  | [], _ :: _ => true
  | a :: dir', b :: p' => String.eqb a b && strictly_under dir' p'
  | _, _ => false
  end.

(* ================================================================= *)
(** ** The directory tree *)

Inductive node := Dir | File.

(** Entries in discovery order (the order in which a directory scan
    yields them). The working directory itself is the empty path and is
    always a directory. *)
Definition file_system := list (path * node).

Fixpoint fs_lookup (fs : file_system) (p : path) : option node :=
  match fs with
  | [] => None
  | (q, n) :: fs' => if path_eqb q p then Some n else fs_lookup fs' p
  end.

Definition is_dir (fs : file_system) (p : path) : bool :=
  match p with
  | [] => true
  | _ => match fs_lookup fs p with Some Dir => true | _ => false end
  end.

(** The patterns of the program all have the shape ["*"] followed by a
    literal, which [fnmatch] matches against names ending in that
    literal. Any other pattern is compared literally. *)
Definition glob_match (pattern name : string) : bool :=
  match pattern with
  | String "*" suffix => str_ends_with suffix name
  | _ => String.eqb pattern name
  end.

(** [dir.rglob(pattern)]: every entry below [dir] whose name matches;
    nothing when [dir] is not a directory. *)
Definition rglob (fs : file_system) (dir : path) (pattern : string) : list path :=
  if is_dir fs dir then
    map fst
      (filter (fun e => strictly_under dir (fst e) &&
                        glob_match pattern (last (fst e) ""))
              fs)
  else [].

(* ================================================================= *)
(** ** Exceptions *)

(** The outcome of a Python call: a value, or a raised [Exception]
    carried as [str(e)]. Only exceptions of class [Exception] are
    modelled, those an [except Exception] clause catches. *)
Inductive exc (A : Type) : Type :=
| Ok (a : A)
| Raise (e : string).
Arguments Ok {A} a.
Arguments Raise {A} e.

(** [p.mkdir(parents=True, exist_ok=True)]: walk down the components,
    creating the directories that are missing; an existing directory is
    accepted, an existing file on the way is an [OSError]. *)
Fixpoint mkdir_from (fs : file_system) (done : path) (todo : list string)
  : exc file_system :=
  match todo with
  | [] => Ok fs
  | c :: todo' =>
      let q := done ++ [c] in
      match fs_lookup fs q with
      | Some Dir => mkdir_from fs q todo'
      | Some File =>
          Raise (match todo' with
                 | [] => "[Errno 17] File exists: '"
                 | _ => "[Errno 20] Not a directory: '"
                 end +:+ path_str (done ++ todo) +:+ "'")
      | None => mkdir_from (fs ++ [(q, Dir)]) q todo'
      end
  end.

Definition mkdir_parents_exist_ok (fs : file_system) (p : path) : exc file_system :=
  mkdir_from fs [] p.

(* ================================================================= *)
(** ** Documents and the external collaborators *)

(** A LangChain [Document]: text and a metadata dictionary. *)
Record Document := mkDocument {
  page_content : string;
  metadata : list (string * string)
}.

(** [d.get(key, default)]. *)
Fixpoint dict_get (d : list (string * string)) (key default : string) : string :=
  match d with
  | [] => default
  | (k, v) :: d' => if String.eqb k key then v else dict_get d' key default
  end.

Inductive loader_kind := TextLoader | PyPDFLoader | Docx2txtLoader.

(** One entry of the log per call that leaves the program. *)
Inductive event :=
| LoaderCall (k : loader_kind) (file : string)
| SplitterCall (docs : list Document)
| IndexBuildCall (chunks : list Document)
| RetrieverCall (query : string) (k : nat)
| GeneratorCall (prompt : string).

(** What the program consumes and does not implement: the three file
    loaders, the text splitter, the embedding gateway together with the
    FAISS index build, the similarity search and the chat model. Each
    may raise, and each may answer differently from one call to the next
    (it is given the log of the calls made so far). *)
Record collaborators := mkCollaborators {
  vector_store : Type;
  load_file : list event -> loader_kind -> string -> exc (list Document);
  split_documents : list event -> list Document -> exc (list Document);
  FAISS_from_documents : list event -> list Document -> exc vector_store;
  similarity_search :
    list event -> vector_store -> string -> nat -> exc (list Document);
  llm_invoke : list event -> string -> exc string
}.

(* ================================================================= *)
(** ** The program state and its monad *)

Section Program.

Variable X : collaborators.

Record Retriever := mkRetriever {
  retriever_store : vector_store X;
  retriever_k : nat
}.

(** The composed chain of [setup_rag_chain]; the prompt template, the
    chat model and the output parser are module constants, so the chain
    is determined by the retriever it closes over. *)
Record RagChain := mkRagChain {
  chain_retriever : Retriever
}.

(** The fields of [class NoteReader]. *)
Record NoteReader := mkNoteReader {
  vectorstore : option (vector_store X);
  retriever : option Retriever;
  rag_chain : option RagChain;
  notes_content : string
}.

(** Everything a statement of the program can read or change: the
    [note_reader] object, the directory tree and the call log. *)
Record system := mkSystem {
  self : NoteReader;
  fs : file_system;
  calls : list event
}.

(** A computation runs from a state to an outcome and a state; what was
    written before an exception is raised stays written. *)
Definition M (A : Type) : Type := system -> exc A * system.

Definition ret {A} (a : A) : M A := fun s => (Ok a, s).

Definition bind {A B} (m : M A) (k : A -> M B) : M B :=
  fun s =>
    match m s with
    | (Ok a, s') => k a s'
    | (Raise e, s') => (Raise e, s')
    end.

(** [try: body / except Exception as e: handler(str(e))]. *)
Definition try_except {A} (body : M A) (handler : string -> M A) : M A :=
  fun s =>
    match body s with
    | (Ok a, s') => (Ok a, s')
    | (Raise e, s') => handler e s'
    end.

Notation "x <- m ;; k" := (bind m (fun x => k))
  (at level 61, m at next level, right associativity).
Notation "m ;;; k" := (bind m (fun _ => k))
  (at level 61, right associativity).

Definition get_self : M NoteReader := fun s => (Ok (self s), s).

Definition set_self (f : NoteReader -> NoteReader) : M unit :=
  fun s => (Ok tt, mkSystem (f (self s)) (fs s) (calls s)).

Definition get_fs : M file_system := fun s => (Ok (fs s), s).

Definition set_fs (t : file_system) : M unit :=
  fun s => (Ok tt, mkSystem (self s) t (calls s)).

(** A call to a collaborator: logged, then answered by the collaborator
    from the log so far. *)
Definition external {A} (ev : event) (answer : list event -> exc A) : M A :=
  fun s => (answer (calls s), mkSystem (self s) (fs s) (calls s ++ [ev])).

Definition set_vectorstore (v : option (vector_store X)) : M unit :=
  set_self (fun r => mkNoteReader v (retriever r) (rag_chain r) (notes_content r)).
Definition set_retriever (v : option Retriever) : M unit :=
  set_self (fun r => mkNoteReader (vectorstore r) v (rag_chain r) (notes_content r)).
Definition set_rag_chain (v : option RagChain) : M unit :=
  set_self (fun r => mkNoteReader (vectorstore r) (retriever r) v (notes_content r)).
Definition set_notes_content (v : string) : M unit :=
  set_self (fun r => mkNoteReader (vectorstore r) (retriever r) (rag_chain r) v).

(* ================================================================= *)
(** ** Module level: configuration *)

Record NotesConfig := mkNotesConfig {
  notes_dir : string;
  glob_pattern : string;
  chunk_size : nat;
  chunk_overlap : nat
}.

Definition config : NotesConfig := mkNotesConfig "./notes" "**/*.md" 1200 150.

(** [Path(config.notes_dir).mkdir(parents=True, exist_ok=True)]. *)
Definition ensure_notes_dir : M unit :=
  t <- get_fs ;;
  match mkdir_parents_exist_ok t (Path (notes_dir config)) with
  | Ok t' => set_fs t'
  | Raise e => fun s => (Raise e, s)
  end.

(* ================================================================= *)
(** ** [load_any_notes] *)

(** One loop [for fp in notes_dir.rglob(pattern): docs.extend(L(str(fp)).load())]
    over the files already listed. *)
Fixpoint load_each (k : loader_kind) (fps : list path) (docs : list Document)
  : M (list Document) :=
  match fps with
  | [] => ret docs
  | fp :: rest =>
      loaded <- external (LoaderCall k (path_str fp))
                         (fun log => load_file X log k (path_str fp)) ;;
      load_each k rest (docs ++ loaded)
  end.

Definition load_pattern (k : loader_kind) (dir : path) (pattern : string)
  (docs : list Document) : M (list Document) :=
  t <- get_fs ;;
  load_each k (rglob t dir pattern) docs.

Definition load_any_notes (dir : path) : M (list Document) :=
  docs <- load_pattern TextLoader dir "*.md" [] ;;
  docs <- load_pattern TextLoader dir "*.txt" docs ;;
  docs <- load_pattern PyPDFLoader dir "*.pdf" docs ;;
  docs <- load_pattern Docx2txtLoader dir "*.docx" docs ;;
  ret docs.

(* ================================================================= *)
(** ** [class NoteReader] *)

Definition NO_NOTES_MESSAGE : string :=
  "No notes found. Please add some documents to the ./notes folder.".

Definition NOT_INITIALIZED_MESSAGE : string :=
  "Notes system not properly initialized. Please check that you have documents in the ./notes folder.".

(** [format_notes_for_display]: a header line with the file name, then
    the first 200 characters of the text followed by an ellipsis. *)
Fixpoint display_entries (docs : list Document) (formatted : list string)
  : list string :=
  match docs with
  | [] => formatted
  | doc :: rest =>
      let source := dict_get (metadata doc) "source" "unknown" in
      let filename := Path_name source in
      display_entries rest
        (formatted ++
           ["📄 " +:+ filename +:+ nl +:+ take_chars 200 (page_content doc) +:+ "..."])
  end.

Definition format_notes_for_display (docs : list Document) : string :=
  str_join (nl +:+ nl) (display_entries docs []).

(** [format_docs]: the loop appends one tagged entry per document, the
    entries are then joined. *)
Fixpoint format_docs_loop (docs : list Document) (formatted : list string)
  : list string :=
  match docs with
  | [] => formatted
  | d :: rest =>
      let source := dict_get (metadata d) "source" "unknown.md" in
      format_docs_loop rest
        (formatted ++
           ["[SOURCE: " +:+ Path_name source +:+ "]" +:+ nl +:+ page_content d])
  end.

Definition format_docs (docs : list Document) : string :=
  str_join (nl +:+ nl +:+ "---" +:+ nl +:+ nl) (format_docs_loop docs []).

(** The prompt template with its two placeholders filled in. *)
Definition RAG_PROMPT (question context : string) : string :=
  "You are a helpful notes assistant. Use only the provided context to answer the question." +:+ nl +:+
  "Cite sources like [SOURCE: filename.md] when relevant." +:+ nl +:+
  nl +:+
  "Question:" +:+ nl +:+
  question +:+ nl +:+
  nl +:+
  "Context:" +:+ nl +:+
  context +:+ nl +:+
  nl +:+
  "Answer succinctly, with bullet points when helpful, and list sources at the end.".

Definition setup_rag_chain : M unit :=
  r <- get_self ;;
  match retriever r with
  | None => ret tt
  | Some rt => set_rag_chain (Some (mkRagChain rt))
  end.

(** The [try] block of [initialize_notes]. The loader, the splitter and
    the index build may raise; wrapping the store in a retriever,
    formatting the display text and composing the chain are
    constructions on values already obtained and return. *)
Definition initialize_notes_body : M unit :=
  raw_docs <- load_any_notes (Path (notes_dir config)) ;;
  match raw_docs with
  | [] => set_notes_content NO_NOTES_MESSAGE
  | _ :: _ =>
      docs <- external (SplitterCall raw_docs)
                       (fun log => split_documents X log raw_docs) ;;
      store <- external (IndexBuildCall docs)
                        (fun log => FAISS_from_documents X log docs) ;;
      set_vectorstore (Some store) ;;;
      set_retriever (Some (mkRetriever store 4)) ;;;
      set_notes_content (format_notes_for_display raw_docs) ;;;
      setup_rag_chain
  end.

Definition initialize_notes : M unit :=
  try_except initialize_notes_body
    (fun e => set_notes_content ("Error loading notes: " +:+ e)).

(** [NoteReader.__init__]. *)
Definition NoteReader_init : M unit :=
  set_self (fun _ => mkNoteReader None None None "") ;;;
  initialize_notes.

Definition read_notes : M string :=
  r <- get_self ;; ret (notes_content r).

(** [rag_chain.invoke(query)]: retrieve, format the context, fill the
    prompt, call the chat model; the output parser hands back its text. *)
Definition rag_chain_invoke (chain : RagChain) (query : string) : M string :=
  let rt := chain_retriever chain in
  docs <- external (RetrieverCall query (retriever_k rt))
            (fun log => similarity_search X log (retriever_store rt) query
                                            (retriever_k rt)) ;;
  let prompt := RAG_PROMPT query (format_docs docs) in
  external (GeneratorCall prompt) (fun log => llm_invoke X log prompt).

Definition summarize_notes (query : string) : M string :=
  r <- get_self ;;
  match rag_chain r with
  | None => ret NOT_INITIALIZED_MESSAGE
  | Some chain =>
      try_except (rag_chain_invoke chain query)
        (fun e => ret ("Error processing your question: " +:+ e))
  end.

(** The module body from the configuration to
    [note_reader = NoteReader()]: an exception of [mkdir] is not caught
    and ends the process. The statements before it read the environment
    and build the clients of the external services; they are not part of
    the model. *)
Definition startup : M unit :=
  ensure_notes_dir ;;;
  NoteReader_init.

(** A run of queries against the same object, one after the other. *)
Fixpoint ask_all (queries : list string) : M (list string) :=
  match queries with
  | [] => ret []
  | q :: rest =>
      a <- summarize_notes q ;;
      answers <- ask_all rest ;;
      ret (a :: answers)
  end.

End Program.

Arguments ret {X A} a.
Arguments bind {X A B} m k.
Arguments mkSystem {X} _ _ _.
Arguments mkNoteReader {X} _ _ _ _.
Arguments self {X} _.
Arguments fs {X} _.
Arguments calls {X} _.
Arguments vectorstore {X} _.
Arguments retriever {X} _.
Arguments rag_chain {X} _.
Arguments notes_content {X} _.

(** The number of calls to the chat model, and to the retriever, in a log. *)
Definition generator_calls (log : list event) : nat :=
  List.length (filter (fun ev => match ev with GeneratorCall _ => true | _ => false end) log).

Definition retriever_calls (log : list event) : nat :=
  List.length (filter (fun ev => match ev with RetrieverCall _ _ => true | _ => false end) log).

(** [Path(config.notes_dir)]. *)
Definition NOTES_PATH : path := Path (notes_dir config).

Definition is_loader_call (ev : event) : bool :=
  match ev with LoaderCall _ _ => true | _ => false end.

(** The state in which [__init__] calls [initialize_notes]: the four
    fields just assigned. *)
Definition fresh_fields {X} (s : system X) : system X :=
  mkSystem (mkNoteReader None None None "") (fs s) (calls s).

(** The same state with other text in [notes_content]. *)
Definition with_notes_content {X} (v : string) (s : system X) : system X :=
  mkSystem
    (mkNoteReader (vectorstore (self s)) (retriever (self s)) (rag_chain (self s)) v)
    (fs s) (calls s).

(** The state after one more logged call. *)
Definition logged {X} (ev : event) (s : system X) : system X :=
  mkSystem (self s) (fs s) (calls s ++ [ev]).



(* ================================================================= *)
(** ** The chunker *)

(** [initialize_notes] builds its splitter from a third-party package
    ([RecursiveCharacterTextSplitter], with the separators paragraph
    break, line break, space and the empty string) and only passes it
    the configuration; the splitting algorithm is not part of the
    program text. The definitions of this module are therefore written
    from section 4.2 of the specification. *)
Module Chunker.

Definition text := list ascii.

(** Modelled from the spec: the records of its data model (section 3),
    which the program does not declare. *)
Inductive doc_format := FormatText | FormatPdf | FormatDocx.

Record SourceDocument := mkSourceDocument {
  path : string;
  rawText : string;
  format : doc_format
}.

Record Chunk := mkChunk {
  chunk_text : string;
  sourcePath : string;
  sequenceIndex : nat
}.

Record ChunkerConfig := mkChunkerConfig {
  chunkSize : nat;
  chunkOverlap : nat
}.

Definition LF : ascii := ascii_of_nat 10.
Definition SP : ascii := ascii_of_nat 32.

(** The separator hierarchy, coarsest first: paragraph break, line
    break, word break, character break (the empty separator, which
    splits between any two characters). These are the separators
    [initialize_notes] passes to its splitter. *)
Definition separators : list text := [[LF; LF]; [LF]; [SP]; []].

Fixpoint starts_with (sep t : text) : bool :=
  match sep, t with
  | [], _ => true
  | a :: sep', b :: t' => Ascii.eqb a b && starts_with sep' t'
  | _ :: _, [] => false
  end.

Definition close_piece (cur : text) : list text :=
  match cur with
  | [] => []
  | _ :: _ => [cur]
  end.

(** Modelled from the spec: the splitting of a text at one separator is
    not in the program text. The specification speaks of split points
    found at the separators; a split point is put in front of each
    occurrence of the separator (occurrences are taken left to right and
    do not overlap), so the pieces are the text cut at those points and
    no character is lost. [cur] is the piece being read and [skip] the
    number of characters still belonging to the separator just found. *)
Fixpoint split_scan (sep : text) (skip : nat) (t cur : text) : list text :=
  match t with
  | [] => close_piece cur
  | c :: t' =>
      match skip with
      | 0 =>
          if starts_with sep t
          then close_piece cur ++ split_scan sep (List.length sep - 1) t' [c]
          else split_scan sep 0 t' (cur ++ [c])
      | S k => split_scan sep k t' (cur ++ [c])
      end
  end.

Definition split_at (sep t : text) : list text := split_scan sep 0 t [].

(** Modelled from the spec: the recursive split is not in the program
    text. "Try the largest available separator first [...]; when a
    chosen split still exceeds chunkSize, fall back to the next finer
    separator recursively": a piece no longer than [size] is a unit, a
    longer one is split again with the finer separators; with no
    separator left the piece is an indivisible unit. *)
Fixpoint split_units (size : nat) (seps : list text) (t : text) : list text :=
  match seps with
  | [] => close_piece t
  | sep :: finer =>
      flat_map
        (fun piece =>
           if List.length piece <=? size then [piece]
           else split_units size finer piece)
        (split_at sep t)
  end.

(** The length of the text a run of units makes up. *)
Definition total (units : list text) : nat := List.length (List.concat units).

(** Modelled from the spec: the choice of the overlap is not in the
    program text. The new chunk "begins chunkOverlap characters before
    the end of the previous chunk"; a chunk is a run of units, so it
    begins at the first unit boundary that is at most [overlap]
    characters before that end and leaves room for the next unit (the
    overlap is a target, and smaller at separator boundaries, section 9
    of the specification). [trim] drops the leading units of the chunk
    just closed down to that boundary. *)
Fixpoint trim (size overlap next : nat) (cur : list text) : list text :=
  match cur with
  | [] => []
  | _ :: cur' =>
      if (overlap <? total cur) || (size <? total cur + next)
      then trim size overlap next cur'
      else cur
  end.

Definition is_nil {A} (l : list A) : bool :=
  match l with [] => true | _ :: _ => false end.

(** Modelled from the spec: the merging of units is not in the program
    text. "Merge adjacent units greedily until adding the next unit
    would exceed chunkSize, then start a new chunk that begins
    chunkOverlap characters before the end of the previous chunk." [cur]
    is the run of units of the chunk being built and [carried] the
    number of its leading characters that repeat the end of the previous
    chunk. Every chunk is returned with that number. *)
Fixpoint merge_units (size overlap : nat) (units cur : list text) (carried : nat)
  : list (nat * text) :=
  match units with
  | [] => if is_nil cur then [] else [(carried, List.concat cur)]
  | u :: rest =>
      if negb (is_nil cur) && (size <? total cur + List.length u) then
        let keep := trim size overlap (List.length u) cur in
        (carried, List.concat cur)
          :: merge_units size overlap rest (keep ++ [u]) (total keep)
      else merge_units size overlap rest (cur ++ [u]) carried
  end.

(** Modelled from the spec: the chunking of a text is not in the
    program text. Split into units, then merge; each chunk comes with
    the length of its overlap with the chunk before it. *)
Definition chunk_spans (cfg : ChunkerConfig) (seps : list text) (t : text)
  : list (nat * text) :=
  merge_units (chunkSize cfg) (chunkOverlap cfg)
              (split_units (chunkSize cfg) seps t) [] 0.

Fixpoint number_chunks (source : string) (i : nat) (spans : list (nat * text))
  : list Chunk :=
  match spans with
  | [] => []
  | (_, t) :: rest =>
      mkChunk (string_of_list_ascii t) source i :: number_chunks source (S i) rest
  end.

(** Modelled from the spec: the chunker is not in the program text.
    "Given a SourceDocument and configuration, produce an ordered
    sequence of Chunks covering the document." *)
Definition chunk_document (cfg : ChunkerConfig) (doc : SourceDocument) : list Chunk :=
  number_chunks (path doc) 0
    (chunk_spans cfg separators (list_ascii_of_string (rawText doc))).

(** For each chunk of the document, in order, the number of its leading
    characters that repeat the end of the chunk before it. *)
Definition chunk_overlaps (cfg : ChunkerConfig) (doc : SourceDocument) : list nat :=
  map fst (chunk_spans cfg separators (list_ascii_of_string (rawText doc))).

(** [s[n:]]. *)
Definition str_drop (n : nat) (s : string) : string :=
  string_of_list_ascii (skipn n (list_ascii_of_string s)).

(** A chunk's unique text: the chunk without its overlap. *)
Definition unique_text (overlap : nat) (c : Chunk) : string :=
  str_drop overlap (chunk_text c).

(** The chunks in sequence order, overlap removed, concatenated. *)
Definition reassemble (overlaps : list nat) (chunks : list Chunk) : string :=
  String.concat "" (map (fun oc => unique_text (fst oc) (snd oc)) (combine overlaps chunks)).

(** The substring [s[i:j]]. *)
Definition str_slice (i j : nat) (s : string) : string :=
  substring i (j - i) s.

(** The texts of the chunks, overlaps removed, one after the other. *)
Definition strip_overlaps (spans : list (nat * text)) : text :=
  List.concat (map (fun p => skipn (fst p) (snd p)) spans).

(** What makes the recorded numbers overlaps: the first [o] characters
    of a chunk are the last [o] characters of the chunk before it
    ([prev]); the first chunk, which has nothing before it, has none. *)
Fixpoint overlaps_shared (prev : text) (spans : list (nat * text)) : Prop :=
  match spans with
  | [] => True
  | (o, t) :: rest =>
      o <= List.length prev /\
      firstn o t = skipn (List.length prev - o) prev /\
      overlaps_shared t rest
  end.

(** The configuration of the scenario: chunks of 100 characters
    overlapping by 20. *)
Definition scenario_config : ChunkerConfig := mkChunkerConfig 100 20.

(** A text without paragraph, line or word breaks. *)
Definition no_natural_separator (t : text) : Prop :=
  ~ In LF t /\ ~ In SP t.

End Chunker.

(* ================================================================= *)
(** ** The context assembler, as the specification words it *)

Definition CONTEXT_SEPARATOR : string := nl +:+ nl +:+ "---" +:+ nl +:+ nl.

(** The file name a document is attributed to. *)
Definition source_name (d : Document) : string :=
  Path_name (dict_get (metadata d) "source" "unknown.md").

Definition source_tag (d : Document) : string :=
  "[SOURCE: " +:+ source_name d +:+ "]".

(** "Concatenates each chunk's text prefixed with a bracketed source tag
    derived from the chunk's originating filename, joined by a clear
    separator, in the result's order." *)
Definition assemble (results : list Document) : string :=
  str_join CONTEXT_SEPARATOR
    (map (fun d => source_tag d +:+ nl +:+ page_content d) results).

(* ================================================================= *)
(** ** The loader as one sequence of files *)

(** The files [load_any_notes] visits, in the order it visits them, each
    with the loader it is given to. *)
Definition note_files (t : file_system) (dir : path) : list (loader_kind * path) :=
  map (pair TextLoader) (rglob t dir "*.md") ++
  map (pair TextLoader) (rglob t dir "*.txt") ++
  map (pair PyPDFLoader) (rglob t dir "*.pdf") ++
  map (pair Docx2txtLoader) (rglob t dir "*.docx").

(** Loading a sequence of files one after the other, as the loops of
    [load_any_notes] do. *)
Fixpoint load_files (X : collaborators) (files : list (loader_kind * path))
  (docs : list Document) : M X (list Document) :=
  match files with
  | [] => ret docs
  | (k, fp) :: rest =>
      bind (external X (LoaderCall k (path_str fp))
                     (fun log => load_file X log k (path_str fp)))
           (fun loaded => load_files X rest (docs ++ loaded))
  end.

(** Every entry has its ancestors in the tree, as directories. *)
Definition fs_closed (t : file_system) : Prop :=
  forall p n, In (p, n) t ->
  forall q, strictly_under q p = true -> is_dir t q = true.

(* ================================================================= *)
(** ** Data for the example runs *)

Definition example_tree : file_system :=
  [(["notes"], Dir); (["notes"; "a.md"], File);
   (["notes"; "b.pdf"], File); (["notes"; "c.txt"], File)].

Definition text_document (file content : string) : Document :=
  mkDocument content [("source", file)].

(** Collaborators for the examples. Every loader returns one document
    per file, except that the PDF loader raises when [pdf_corrupt]; the
    splitter returns the documents as they are; the index is the list of
    its chunks and its build raises when [embedding_down]; the search
    returns the first [k] chunks; the chat model answers with one fixed
    sentence. *)
Definition example_collaborators (pdf_corrupt embedding_down : bool) : collaborators :=
  mkCollaborators (list Document)
    (fun _ k file =>
       match k with
       | PyPDFLoader =>
           if pdf_corrupt then Raise "invalid pdf header"
           else Ok [text_document file "Page one."]
       | _ => Ok [text_document file "Paris is the capital of France."]
       end)
    (fun _ docs => Ok docs)
    (fun _ docs =>
       if embedding_down then Raise "embedding service unavailable" else Ok docs)
    (fun _ store _ k => Ok (firstn k store))
    (fun _ _ => Ok "Paris. Sources: [SOURCE: a.md]").

(** Two retrieved chunks, one attributed to a file, one without a
    source in its metadata. *)
Definition paris_chunk : Document :=
  mkDocument "Paris is the capital of France." [("source", "notes/a.md")].

Definition untagged_chunk : Document :=
  mkDocument "Rome is in Italy." [].

(** The process before the module body has run. *)
Definition boot (X : collaborators) (t : file_system) : system X :=
  mkSystem (mkNoteReader None None None "") t [].

(** The services all up; the PDF loader failing; the embedding gateway
    failing. *)
Definition services_up : collaborators := example_collaborators false false.
Definition embedding_down_run : collaborators := example_collaborators false true.

(** A tree with the notes directory and nothing in it. *)
Definition empty_notes_tree : file_system := [(["notes"], Dir)].

(** A document of 250 characters without any separator, and a short
    text with one word longer than ten characters. *)
Definition unbroken_document : Chunker.SourceDocument :=
  Chunker.mkSourceDocument "notes/long.txt"
    (string_of_list_ascii
       (List.concat (repeat (list_ascii_of_string "abcdefghij") 25)))
    Chunker.FormatText.

Definition words_only : list Chunker.text := [[Chunker.SP]].

Definition short_words : Chunker.text :=
  list_ascii_of_string "aaaa bbb cc".

Definition long_word : Chunker.text :=
  list_ascii_of_string "aaaa bbb cc dddddddddddddd e ff".

Definition small_config : Chunker.ChunkerConfig := Chunker.mkChunkerConfig 10 4.

(* ================================================================= *)
(** ** The HTTP routes *)

(** What [request.get_json()] delivers to [chat]: an exception when the
    body is not JSON, [None] for the JSON value [null], or a dictionary.
    The values of the dictionary are taken to be strings, as the
    frontend sends them. *)
Inductive request_body :=
| NotJson (e : string)
| JsonNull
| JsonObject (fields : list (string * string)).

(** A response: the status code and the fields of the JSON payload. *)
Record http_response := mkResponse {
  status : nat;
  payload : list (string * string)
}.

Definition TIMESTAMP : string := "2024-01-01T00:00:00Z".

Section Routes.

Variable X : collaborators.

Definition raise {A} (e : string) : M X A := fun s => (Raise e, s).

(** [data.get('message', '')] on what [get_json] returned; on [None]
    the attribute lookup raises. *)
Definition message_of (body : request_body) : M X string :=
  match body with
  | NotJson e => raise e
  | JsonNull => raise "'NoneType' object has no attribute 'get'"
  | JsonObject fields => ret (dict_get fields "message" "")
  end.

(** The route [POST /api/chat]. *)
Definition chat (body : request_body) : M X http_response :=
  try_except X
    (bind (message_of body) (fun message =>
       if String.eqb message "" then
         ret (mkResponse 400 [("error", "No message provided")])
       else
         bind (summarize_notes X message) (fun response =>
           ret (mkResponse 200 [("response", response); ("timestamp", TIMESTAMP)]))))
    (fun e => ret (mkResponse 500 [("error", e)])).

(** The route [GET /api/notes]. *)
Definition get_notes : M X http_response :=
  try_except X
    (bind (read_notes X) (fun notes_content =>
       ret (mkResponse 200 [("notes", notes_content); ("timestamp", TIMESTAMP)])))
    (fun e => ret (mkResponse 500 [("error", e)])).

End Routes.

(* ================================================================= *)
(** ** Vocabulary for the further properties *)

(** The log entry of opening one file. *)
Definition loader_event (f : loader_kind * path) : event :=
  LoaderCall (fst f) (path_str (snd f)).

(** The extensions each loader is given. *)
Definition loader_suffixes (k : loader_kind) : list string :=
  match k with
  | TextLoader => [".md"; ".txt"]
  | PyPDFLoader => [".pdf"]
  | Docx2txtLoader => [".docx"]
  end.

(** A path as [Path] produces them: no empty component, no ["."], no
    slash inside a component. *)
Definition path_wf (p : path) : Prop :=
  Forall (fun c => is_real_component c = true /\
                   str_contains_char "/" c = false) p.

(** A path that names what it says: well formed and without [".."]. *)
Definition path_plain (p : path) : Prop := path_wf p /\ ~ In ".." p.

(** The preview of a document in the display text. *)
Definition preview (doc : Document) : string := take_chars 200 (page_content doc).

(** One entry of the display text. *)
Definition display_entry (doc : Document) : string :=
  "📄 " +:+ Path_name (dict_get (metadata doc) "source" "unknown") +:+ nl +:+
  preview doc +:+ "...".

(** The key is not in the dictionary. *)
Definition key_absent (d : list (string * string)) (key : string) : Prop :=
  forall v, ~ In (key, v) d.

(** A retrieved chunk of unknown origin, and a ready object whose chain
    answers from a one-chunk index. *)
Definition orphan_chunk : Document := mkDocument "Rome is in Italy." [("page", "3")].

Definition ready_system : system services_up :=
  mkSystem
    (mkNoteReader (X := services_up) (Some [paris_chunk])
       (Some (mkRetriever services_up [paris_chunk] 4))
       (Some (mkRagChain services_up (mkRetriever services_up [paris_chunk] 4)))
       "")
    example_tree [].

(** A ready object whose index holds no chunk. *)
Definition empty_index_system : system services_up :=
  mkSystem
    (mkNoteReader (X := services_up) (Some [])
       (Some (mkRetriever services_up [] 4))
       (Some (mkRagChain services_up (mkRetriever services_up [] 4)))
       "")
    example_tree [].


(** A chunk whose text has characters of more than one byte. *)
Definition accented_chunk : Document :=
  mkDocument "Café crème à Orléans" [("source", "notes/été.md")].

(** A tree in which the notes path is taken by a regular file. *)
Definition notes_is_a_file : file_system := [(["notes"], File)].

(* ================================================================= *)
(** * Properties *)

(** ** Strings and paths *)

Lemma split_on_char_nonempty c s : split_on_char c s <> [].
Proof.
  destruct s as [|a s]; simpl; [discriminate|].
  destruct (Ascii.eqb a c); [discriminate|].
  destruct (split_on_char c s); discriminate.
Qed.

(** No field of a split contains the separating character. *)
Lemma split_on_char_fields c s :
  Forall (fun f => str_contains_char c f = false) (split_on_char c s).
Proof.
  induction s as [|a s IH]; simpl.
  - repeat constructor.
  - destruct (Ascii.eqb a c) eqn:E.
    + constructor; [reflexivity | exact IH].
    + destruct (split_on_char c s) as [|f fs0].
      * repeat constructor. simpl. rewrite E. reflexivity.
      * inversion IH; subst. constructor; [|assumption].
        simpl. rewrite E. assumption.
Qed.

Lemma last_In {A} (l : list A) (d : A) : l <> [] -> In (last l d) l.
Proof.
  induction l as [|a [|b l] IH]; intros H;
    [contradiction | left; reflexivity | right; apply IH; discriminate].
Qed.

(** [Path(s).name] never contains a slash: it is one component. *)
Lemma Path_name_no_slash s : str_contains_char "/" (Path_name s) = false.
Proof.
  unfold Path_name, Path.
  destruct (filter is_real_component (split_on_char "/" s)) as [|c cs] eqn:E;
    [reflexivity|].
  assert (I : In (last (c :: cs) "") (c :: cs)) by (apply last_In; discriminate).
  rewrite <- E in I at 2. apply filter_In in I. destruct I as [I _].
  pose proof (split_on_char_fields "/" s) as F.
  rewrite Forall_forall in F. apply F. exact I.
Qed.

Lemma split_on_char_append c s t :
  split_on_char c (s +:+ String c t) = split_on_char c s ++ split_on_char c t.
Proof.
  induction s as [|a s IH]; simpl.
  - rewrite Ascii.eqb_refl. reflexivity.
  - destruct (Ascii.eqb a c); [rewrite IH; reflexivity|].
    rewrite IH.
    pose proof (split_on_char_nonempty c s) as N.
    destruct (split_on_char c s); [contradiction|reflexivity].
Qed.

Lemma split_on_char_absent c s :
  str_contains_char c s = false -> split_on_char c s = [s].
Proof.
  induction s as [|a s IH]; simpl; [reflexivity|].
  intros H. apply orb_false_iff in H. destruct H as [E H].
  rewrite E, (IH H). reflexivity.
Qed.

(** The name of [dir/name] is [name]. *)
Lemma Path_name_of_file dir name :
  str_contains_char "/" name = false ->
  is_real_component name = true ->
  Path_name (dir +:+ "/" +:+ name) = name.
Proof.
  intros Hs Hr. unfold Path_name, Path.
  change (dir +:+ "/" +:+ name) with (dir +:+ String "/" name).
  rewrite split_on_char_append, filter_app, (split_on_char_absent _ _ Hs).
  simpl. rewrite Hr. apply last_last.
Qed.

(** ** The context assembler *)

Lemma str_append_assoc a b c : (a +:+ b) +:+ c = a +:+ b +:+ c.
Proof.
  induction a as [|x a IH]; simpl; [reflexivity | rewrite IH; reflexivity].
Qed.

Lemma format_docs_loop_map docs : forall formatted,
  format_docs_loop docs formatted =
  formatted ++ map (fun d => source_tag d +:+ nl +:+ page_content d) docs.
Proof.
  induction docs as [|d docs IH]; intros formatted.
  - simpl. rewrite app_nil_r. reflexivity.
  - cbn [format_docs_loop map]. rewrite IH, <- app_assoc.
    unfold source_tag, source_name.
    rewrite !str_append_assoc. reflexivity.
Qed.

(** C7. [format_docs] is the assembler of the specification: the entries
    follow the order of the retrieval result, each is the chunk text
    under a tag [[SOURCE: name]], and they are joined by a fixed
    separator. The name in a tag never contains a slash, and for a
    source [dir/name] the tag names [name] alone. Being a function of
    its argument, the output is the same for the same input. *)
Theorem format_docs_assembles (docs : list Document) :
  format_docs docs = assemble docs /\
  Forall (fun d => str_contains_char "/" (source_name d) = false) docs /\
  (forall d dir name,
      In d docs ->
      dict_get (metadata d) "source" "unknown.md" = dir +:+ "/" +:+ name ->
      str_contains_char "/" name = false ->
      is_real_component name = true ->
      source_tag d = "[SOURCE: " +:+ name +:+ "]").
Proof.
  split; [|split].
  - unfold format_docs, assemble. rewrite format_docs_loop_map. reflexivity.
  - apply Forall_forall. intros d _. apply Path_name_no_slash.
  - intros d dir name _ Hsrc Hs Hr. unfold source_tag, source_name.
    rewrite Hsrc, (Path_name_of_file dir name Hs Hr). reflexivity.
Qed.

Lemma format_docs_assembles_witness :
  format_docs [paris_chunk; untagged_chunk] =
    "[SOURCE: a.md]" +:+ nl +:+ "Paris is the capital of France." +:+
    nl +:+ nl +:+ "---" +:+ nl +:+ nl +:+
    "[SOURCE: unknown.md]" +:+ nl +:+ "Rome is in Italy." /\
  source_tag paris_chunk = "[SOURCE: a.md]".
Proof.
  destruct (format_docs_assembles [paris_chunk; untagged_chunk]) as (E & _ & T).
  split.
  - rewrite E. reflexivity.
  - apply (T paris_chunk "notes" "a.md"); [left; reflexivity | reflexivity ..].
Defined.

(** ** Frame properties of the loader *)

Section ProgramFacts.

Variable X : collaborators.

Lemma load_each_frame k fps : forall docs (s : system X),
  let out := load_each X k fps docs s in
  self (snd out) = self s /\ fs (snd out) = fs s /\
  exists log, calls (snd out) = calls s ++ log /\
              forallb is_loader_call log = true.
Proof.
  induction fps as [|fp rest IH]; intros docs s; simpl.
  - repeat split. exists []. rewrite app_nil_r. split; reflexivity.
  - unfold bind, external. simpl.
    destruct (load_file X (calls s) k (path_str fp)) as [loaded | e].
    + specialize (IH (docs ++ loaded)
        (mkSystem (self s) (fs s) (calls s ++ [LoaderCall k (path_str fp)]))).
      simpl in IH. destruct IH as (Hs & Hf & log & Hc & Hl).
      repeat split; [exact Hs | exact Hf |].
      exists (LoaderCall k (path_str fp) :: log). split.
      * rewrite Hc, <- app_assoc. reflexivity.
      * simpl. exact Hl.
    + simpl. repeat split. exists [LoaderCall k (path_str fp)].
      split; reflexivity.
Qed.

Lemma load_pattern_frame k dir pattern docs (s : system X) :
  let out := load_pattern X k dir pattern docs s in
  self (snd out) = self s /\ fs (snd out) = fs s /\
  exists log, calls (snd out) = calls s ++ log /\
              forallb is_loader_call log = true.
Proof.
  unfold load_pattern, bind, get_fs. apply load_each_frame.
Qed.

Lemma load_any_notes_frame dir (s : system X) :
  let out := load_any_notes X dir s in
  self (snd out) = self s /\ fs (snd out) = fs s /\
  exists log, calls (snd out) = calls s ++ log /\
              forallb is_loader_call log = true.
Proof.
  unfold load_any_notes.
  assert (step : forall (m : M X (list Document)) (k : list Document -> M X (list Document)) (s0 : system X),
    (let out := m s0 in
     self (snd out) = self s0 /\ fs (snd out) = fs s0 /\
     exists log, calls (snd out) = calls s0 ++ log /\ forallb is_loader_call log = true) ->
    (forall d s1, let out := k d s1 in
     self (snd out) = self s1 /\ fs (snd out) = fs s1 /\
     exists log, calls (snd out) = calls s1 ++ log /\ forallb is_loader_call log = true) ->
    let out := bind m k s0 in
    self (snd out) = self s0 /\ fs (snd out) = fs s0 /\
    exists log, calls (snd out) = calls s0 ++ log /\ forallb is_loader_call log = true).
  { intros m k s0 Hm Hk. unfold bind. simpl in *.
    destruct (m s0) as [[d | e] s1]; simpl in *.
    - destruct Hm as (A & B & l1 & C & D).
      destruct (Hk d s1) as (A' & B' & l2 & C' & D').
      repeat split; [congruence | congruence |].
      exists (l1 ++ l2). rewrite C', C, app_assoc, forallb_app, D, D'.
      split; reflexivity.
    - exact Hm. }
  apply step; [apply load_pattern_frame | intros d1 s1].
  apply step; [apply load_pattern_frame | intros d2 s2].
  apply step; [apply load_pattern_frame | intros d3 s3].
  apply step; [apply load_pattern_frame | intros d4 s4].
  simpl. repeat split. exists []. rewrite app_nil_r. split; reflexivity.
Qed.

Lemma loader_calls_no_generator log :
  forallb is_loader_call log = true ->
  forall before, generator_calls (before ++ log) = generator_calls before /\
                 retriever_calls (before ++ log) = retriever_calls before.
Proof.
  intros H before. unfold generator_calls, retriever_calls.
  rewrite !filter_app, !length_app.
  induction log as [|ev log IH]; simpl in *.
  - split; lia.
  - apply andb_true_iff in H. destruct H as [H1 H2].
    destruct ev; try discriminate; simpl; apply IH; exact H2.
Qed.

(** ** The outcomes of initialization *)

(** The [try] block, case by case: the loader raises; it finds nothing;
    the splitter raises; the index build raises; everything succeeds. *)
Lemma initialize_notes_body_cases (s : system X) :
  match load_any_notes X NOTES_PATH s with
  | (Raise e, s1) => initialize_notes_body X s = (Raise e, s1)
  | (Ok [], s1) =>
      initialize_notes_body X s = (Ok tt, with_notes_content NO_NOTES_MESSAGE s1)
  | (Ok ((_ :: _) as raw), s1) =>
      let s2 := logged (SplitterCall raw) s1 in
      match split_documents X (calls s1) raw with
      | Raise e => initialize_notes_body X s = (Raise e, s2)
      | Ok docs =>
          let s3 := logged (IndexBuildCall docs) s2 in
          match FAISS_from_documents X (calls s2) docs with
          | Raise e => initialize_notes_body X s = (Raise e, s3)
          | Ok store =>
              initialize_notes_body X s =
              (Ok tt,
               mkSystem
                 (mkNoteReader (Some store) (Some (mkRetriever X store 4))
                    (Some (mkRagChain X (mkRetriever X store 4)))
                    (format_notes_for_display raw))
                 (fs s3) (calls s3))
          end
      end
  end.
Proof.
  unfold initialize_notes_body, NOTES_PATH, bind.
  destruct (load_any_notes X (Path (notes_dir config)) s) as [[raw | e] s1];
    [|reflexivity].
  destruct raw as [|d raw]; [reflexivity|].
  unfold external, logged. cbn [calls self fs].
  destruct (split_documents X (calls s1) (d :: raw)) as [docs | e]; [|reflexivity].
  destruct (FAISS_from_documents X _ docs) as [store | e]; reflexivity.
Qed.

(** When the [try] block raises, the three fields are as they were. *)
Lemma initialize_notes_body_raises (s s1 : system X) e :
  initialize_notes_body X s = (Raise e, s1) ->
  self s1 = self s /\ fs s1 = fs s.
Proof.
  intros H. pose proof (initialize_notes_body_cases s) as C.
  pose proof (load_any_notes_frame NOTES_PATH s) as F. simpl in F.
  destruct (load_any_notes X NOTES_PATH s) as [[raw | e0] s0]; simpl in F.
  - destruct raw as [|d raw]; [rewrite C in H; discriminate|].
    cbv zeta in C.
    destruct (split_documents X (calls s0) (d :: raw)) as [docs | e1].
    + destruct (FAISS_from_documents X _ docs) as [store | e2];
        rewrite C in H; [discriminate|].
      inversion H; subst. simpl. tauto.
    + rewrite C in H. inversion H; subst. simpl. tauto.
  - rewrite C in H. inversion H; subst. tauto.
Qed.

(** A query against an object without a chain: the fixed message, and
    the state untouched. *)
Lemma summarize_notes_without_chain q (s : system X) :
  rag_chain (self s) = None ->
  summarize_notes X q s = (Ok NOT_INITIALIZED_MESSAGE, s).
Proof.
  intros H. unfold summarize_notes, bind, get_self. rewrite H. reflexivity.
Qed.

Lemma ask_all_without_chain qs (s : system X) :
  rag_chain (self s) = None ->
  ask_all X qs s = (Ok (map (fun _ => NOT_INITIALIZED_MESSAGE) qs), s).
Proof.
  intros H. induction qs as [|q qs IH]; [reflexivity|].
  cbn [ask_all map]. unfold bind at 1.
  rewrite (summarize_notes_without_chain q s H).
  unfold bind at 1. rewrite IH. reflexivity.
Qed.

Lemma NoteReader_init_unfold (s : system X) :
  NoteReader_init X s =
  match initialize_notes_body X (fresh_fields s) with
  | (Ok a, s') => (Ok a, s')
  | (Raise e, s') => (Ok tt, with_notes_content ("Error loading notes: " +:+ e) s')
  end.
Proof.
  unfold NoteReader_init, initialize_notes, try_except, bind, set_self.
  cbn [fresh_fields]. 
  change (mkSystem (mkNoteReader None None None "") (fs s) (calls s))
    with (fresh_fields s).
  destruct (initialize_notes_body X (fresh_fields s)) as [[a | e] s']; reflexivity.
Qed.

(** The three ways a query ends. *)
Lemma summarize_notes_cases (q : string) (s : system X) :
  exists answer s',
    summarize_notes X q s = (Ok answer, s') /\
    self s' = self s /\
    ((rag_chain (self s) = None /\ answer = NOT_INITIALIZED_MESSAGE /\ s' = s)
     \/ (exists chain docs,
           rag_chain (self s) = Some chain /\
           llm_invoke X (calls s ++ [RetrieverCall q (retriever_k X (chain_retriever X chain))])
                      (RAG_PROMPT q (format_docs docs)) = Ok answer)
     \/ (exists chain e,
           rag_chain (self s) = Some chain /\
           answer = "Error processing your question: " +:+ e)).
Proof.
  destruct (rag_chain (self s)) as [chain|] eqn:R.
  - unfold summarize_notes, bind, get_self. rewrite R.
    unfold try_except, rag_chain_invoke, bind, external; cbn [calls self fs].
    destruct (similarity_search X (calls s) _ q _) as [docs | e].
    + destruct (llm_invoke X _ (RAG_PROMPT q (format_docs docs))) as [a | e] eqn:L.
      * eexists _, _. split; [reflexivity|]. split; [reflexivity|].
        right; left. exists chain, docs. split; [reflexivity | exact L].
      * eexists _, _. split; [reflexivity|]. split; [reflexivity|].
        right; right. exists chain, e. split; reflexivity.
    + eexists _, _. split; [reflexivity|]. split; [reflexivity|].
      right; right. exists chain, e. split; reflexivity.
  - exists NOT_INITIALIZED_MESSAGE, s.
    split; [apply summarize_notes_without_chain; exact R|].
    split; [reflexivity|]. left. repeat split.
Qed.

(** C8. Whatever the state of the object and whatever the question,
    [summarize_notes] returns a string and raises nothing: the fixed
    advisory when there is no chain, else the text of the chat model, or
    an error message when retrieval or generation raised. The object
    itself is left as it was. *)
Theorem summarize_notes_returns_string (q : string) (s : system X) :
  exists answer s',
    summarize_notes X q s = (Ok answer, s') /\
    self s' = self s /\
    ((rag_chain (self s) = None /\ answer = NOT_INITIALIZED_MESSAGE /\ s' = s)
     \/ (exists chain docs,
           rag_chain (self s) = Some chain /\
           llm_invoke X (calls s ++ [RetrieverCall q (retriever_k X (chain_retriever X chain))])
                      (RAG_PROMPT q (format_docs docs)) = Ok answer)
     \/ (exists chain e,
           rag_chain (self s) = Some chain /\
           answer = "Error processing your question: " +:+ e)).
Proof.
  exact (summarize_notes_cases q s).
Qed.

(** ** Initialization that finds nothing, and initialization that fails *)

(** C5. When the loader finds no document, [__init__] leaves the three
    fields unset and stores the "no notes" text; from then on every
    query is answered by the fixed advisory, with the state (and so the
    call log) untouched: the chat model is never called, neither by the
    queries nor by the initialization. *)
Theorem no_documents_degraded (s0 s1 : system X) :
  load_any_notes X NOTES_PATH (fresh_fields s0) = (Ok [], s1) ->
  exists s',
    NoteReader_init X s0 = (Ok tt, s') /\
    self s' = mkNoteReader None None None NO_NOTES_MESSAGE /\
    generator_calls (calls s') = generator_calls (calls s0) /\
    forall qs,
      ask_all X qs s' = (Ok (map (fun _ => NOT_INITIALIZED_MESSAGE) qs), s').
Proof.
  intros L.
  pose proof (initialize_notes_body_cases (fresh_fields s0)) as C.
  pose proof (load_any_notes_frame NOTES_PATH (fresh_fields s0)) as F.
  rewrite L in C, F. simpl in F. destruct F as (Fs & _ & log & Fc & Fl).
  exists (with_notes_content NO_NOTES_MESSAGE s1).
  rewrite NoteReader_init_unfold, C.
  split; [reflexivity|]. split; [|split].
  - unfold with_notes_content. cbn [self]. rewrite Fs. reflexivity.
  - cbn [with_notes_content calls]. rewrite Fc.
    apply (loader_calls_no_generator log Fl).
  - intros qs. apply ask_all_without_chain.
    cbn [with_notes_content self rag_chain]. rewrite Fs. reflexivity.
Qed.

(** C1, as the program has it. When the [try] block of
    [initialize_notes] raises, [__init__] still returns; the reason is
    stored, prefixed, in [notes_content] (which [read_notes] returns),
    the three fields stay unset, and every later query is answered by
    the fixed advisory, without raising and without touching the state. *)
Theorem failed_initialization (s0 s1 : system X) (e : string) :
  initialize_notes_body X (fresh_fields s0) = (Raise e, s1) ->
  exists s',
    NoteReader_init X s0 = (Ok tt, s') /\
    self s' = mkNoteReader None None None ("Error loading notes: " +:+ e) /\
    read_notes X s' = (Ok ("Error loading notes: " +:+ e), s') /\
    forall qs,
      ask_all X qs s' = (Ok (map (fun _ => NOT_INITIALIZED_MESSAGE) qs), s').
Proof.
  intros B. destruct (initialize_notes_body_raises _ _ _ B) as [Hs _].
  exists (with_notes_content ("Error loading notes: " +:+ e) s1).
  rewrite NoteReader_init_unfold, B.
  assert (E : self (with_notes_content ("Error loading notes: " +:+ e) s1) =
              mkNoteReader None None None ("Error loading notes: " +:+ e)).
  { unfold with_notes_content. cbn [self]. rewrite Hs. reflexivity. }
  split; [reflexivity|]. split; [exact E|]. split.
  - unfold read_notes, bind, get_self, ret. rewrite E. reflexivity.
  - intros qs. apply ask_all_without_chain. rewrite E. reflexivity.
Qed.

(** ** The wiring invariant *)

Lemma initialize_notes_unfold (s : system X) :
  initialize_notes X s =
  match initialize_notes_body X s with
  | (Ok a, s') => (Ok a, s')
  | (Raise e, s') => (Ok tt, with_notes_content ("Error loading notes: " +:+ e) s')
  end.
Proof.
  unfold initialize_notes, try_except.
  destruct (initialize_notes_body X s) as [[a | e] s']; reflexivity.
Qed.






(** ** The loader stops at the first file that fails *)

Lemma load_each_as_files k fps : forall docs (s : system X),
  load_each X k fps docs s = load_files X (map (pair k) fps) docs s.
Proof.
  induction fps as [|fp rest IH]; intros docs s; [reflexivity|].
  cbn [load_each load_files map]. unfold bind.
  destruct (external X _ _ s) as [[loaded | e] s1]; [apply IH | reflexivity].
Qed.

Lemma load_files_app pre : forall post docs (s : system X),
  load_files X (pre ++ post) docs s =
  match load_files X pre docs s with
  | (Ok d, s') => load_files X post d s'
  | (Raise e, s') => (Raise e, s')
  end.
Proof.
  induction pre as [|[k fp] pre IH]; intros post docs s; [reflexivity|].
  cbn [load_files app]. unfold bind.
  destruct (external X _ _ s) as [[loaded | e] s1]; [apply IH | reflexivity].
Qed.

Lemma load_files_fs files : forall docs (s : system X),
  fs (snd (load_files X files docs s)) = fs s.
Proof.
  induction files as [|[k fp] rest IH]; intros docs s; [reflexivity|].
  cbn [load_files]. unfold bind, external.
  destruct (load_file X (calls s) k (path_str fp)) as [loaded | e];
    [rewrite IH|]; reflexivity.
Qed.

(** The four loops are one pass over [note_files]. *)
Lemma load_any_notes_as_files dir (s : system X) :
  load_any_notes X dir s = load_files X (note_files (fs s) dir) [] s.
Proof.
  unfold load_any_notes, note_files, load_pattern, bind, get_fs, ret.
  rewrite load_files_app, load_each_as_files.
  pose proof (load_files_fs (map (pair TextLoader) (rglob (fs s) dir "*.md")) [] s) as F1.
  destruct (load_files X (map (pair TextLoader) (rglob (fs s) dir "*.md")) [] s)
    as [[d1 | e] s1]; [|reflexivity].
  simpl in F1. rewrite load_files_app, load_each_as_files, F1.
  pose proof (load_files_fs (map (pair TextLoader) (rglob (fs s) dir "*.txt")) d1 s1) as F2.
  destruct (load_files X (map (pair TextLoader) (rglob (fs s) dir "*.txt")) d1 s1)
    as [[d2 | e] s2]; [|reflexivity].
  simpl in F2. rewrite F1 in F2. rewrite load_files_app, load_each_as_files, F2.
  pose proof (load_files_fs (map (pair PyPDFLoader) (rglob (fs s) dir "*.pdf")) d2 s2) as F3.
  destruct (load_files X (map (pair PyPDFLoader) (rglob (fs s) dir "*.pdf")) d2 s2)
    as [[d3 | e] s3]; [|reflexivity].
  simpl in F3. rewrite F2 in F3. rewrite load_each_as_files, F3.
  destruct (load_files X (map (pair Docx2txtLoader) (rglob (fs s) dir "*.docx")) d3 s3)
    as [[d4 | e] s4]; reflexivity.
Qed.



(** ** Cold start *)

Lemma path_eqb_eq p : forall q, path_eqb p q = true <-> p = q.
Proof.
  induction p as [|a p IH]; intros [|b q]; simpl; split; intros H;
    try reflexivity; try discriminate.
  - apply andb_true_iff in H. destruct H as [H1 H2].
    apply String.eqb_eq in H1. apply IH in H2. congruence.
  - inversion H; subst. rewrite String.eqb_refl. simpl. apply IH. reflexivity.
Qed.

Lemma fs_lookup_app (a b : file_system) p :
  fs_lookup (a ++ b) p =
  match fs_lookup a p with Some n => Some n | None => fs_lookup b p end.
Proof.
  induction a as [|[q n] a IH]; simpl; [reflexivity|].
  destruct (path_eqb q p); [reflexivity | exact IH].
Qed.

Lemma strictly_under_irrefl p : strictly_under p p = false.
Proof.
  induction p as [|a p IH]; simpl; [reflexivity|].
  rewrite IH. apply andb_false_r.
Qed.

(** Below a directory that is missing from a closed tree there is
    nothing, and creating the directory does not change that. *)
Lemma rglob_new_dir (t : file_system) dir pattern :
  fs_closed t -> dir <> [] -> fs_lookup t dir = None ->
  rglob (t ++ [(dir, Dir)]) dir pattern = [].
Proof.
  intros Hc Hne Hl. unfold rglob.
  destruct (is_dir (t ++ [(dir, Dir)]) dir); [|reflexivity].
  rewrite filter_app, map_app. simpl.
  rewrite strictly_under_irrefl. simpl. rewrite app_nil_r.
  assert (E : forall l, (forall e, In e l -> In e t) ->
            filter (fun e => strictly_under dir (fst e) &&
                             glob_match pattern (last (fst e) "")) l = []).
  { induction l as [|[p n] l IH]; intros Hin; [reflexivity|]. simpl.
    destruct (strictly_under dir p) eqn:U.
    - exfalso. pose proof (Hc p n (Hin _ (or_introl eq_refl)) dir U) as D.
      unfold is_dir in D. destruct dir; [contradiction|].
      rewrite Hl in D. discriminate.
    - simpl. apply IH. intros e He. apply Hin. right. exact He. }
  rewrite (E t (fun e He => He)). reflexivity.
Qed.

Lemma load_any_notes_empty dir (s : system X) :
  (forall pattern, rglob (fs s) dir pattern = []) ->
  load_any_notes X dir s = (Ok [], s).
Proof.
  intros E. rewrite load_any_notes_as_files. unfold note_files.
  rewrite !E. reflexivity.
Qed.

(** C6. When the notes directory is missing from the tree at start-up,
    the module body creates it, as a directory with nothing below it;
    the loader then returns the empty list without raising and without
    calling any loader, and start-up completes: the object holds the
    "no notes" text and no chain. *)
Theorem cold_start (s0 : system X) :
  fs_closed (fs s0) ->
  fs_lookup (fs s0) NOTES_PATH = None ->
  let s1 := mkSystem (self s0) (fs s0 ++ [(NOTES_PATH, Dir)]) (calls s0) in
  ensure_notes_dir X s0 = (Ok tt, s1) /\
  is_dir (fs s1) NOTES_PATH = true /\
  (forall pattern, rglob (fs s1) NOTES_PATH pattern = []) /\
  load_any_notes X NOTES_PATH s1 = (Ok [], s1) /\
  startup X s0 =
    (Ok tt, mkSystem (mkNoteReader None None None NO_NOTES_MESSAGE) (fs s1) (calls s0)).
Proof.
  intros Hc Hl s1.
  assert (Hne : NOTES_PATH <> []) by discriminate.
  assert (M1 : ensure_notes_dir X s0 = (Ok tt, s1)).
  { unfold ensure_notes_dir, bind, get_fs, mkdir_parents_exist_ok.
    change (Path (notes_dir config)) with ["notes"].
    change NOTES_PATH with ["notes"] in *.
    cbn [mkdir_from app]. rewrite Hl. reflexivity. }
  assert (R : forall pattern, rglob (fs s1) NOTES_PATH pattern = []).
  { intros pattern. apply rglob_new_dir; assumption. }
  assert (L : forall s : system X, fs s = fs s1 ->
              load_any_notes X NOTES_PATH s = (Ok [], s)).
  { intros s Hs. apply load_any_notes_empty. rewrite Hs. exact R. }
  split; [exact M1|]. split; [|split; [exact R|split; [apply L; reflexivity|]]].
  - unfold is_dir. change NOTES_PATH with ["notes"] in *.
    cbn [s1 fs]. rewrite fs_lookup_app, Hl. reflexivity.
  - unfold startup, bind. rewrite M1, NoteReader_init_unfold.
    pose proof (initialize_notes_body_cases (fresh_fields s1)) as C.
    rewrite (L (fresh_fields s1) eq_refl) in C. rewrite C. reflexivity.
Qed.

End ProgramFacts.

(* ================================================================= *)
(** ** The theorems at work on example runs *)

Lemma summarize_after_failure_counterexample :
  notes_content
    (self (snd (NoteReader_init embedding_down_run
                  (boot embedding_down_run example_tree)))) =
    "Error loading notes: embedding service unavailable" /\
  fst (summarize_notes embedding_down_run "What is the capital of France?"
         (snd (NoteReader_init embedding_down_run
                 (boot embedding_down_run example_tree)))) =
    Ok NOT_INITIALIZED_MESSAGE /\
  NOT_INITIALIZED_MESSAGE <> "Error loading notes: embedding service unavailable" /\
  NOT_INITIALIZED_MESSAGE <> "embedding service unavailable".
Proof.
  repeat split; try reflexivity; apply String.eqb_neq; reflexivity.
Qed.

Lemma failed_initialization_witness :
  exists s',
    NoteReader_init embedding_down_run (boot embedding_down_run example_tree) =
      (Ok tt, s') /\
    self s' =
      mkNoteReader None None None
        "Error loading notes: embedding service unavailable" /\
    read_notes embedding_down_run s' =
      (Ok "Error loading notes: embedding service unavailable", s') /\
    forall qs,
      ask_all embedding_down_run qs s' =
      (Ok (map (fun _ => NOT_INITIALIZED_MESSAGE) qs), s').
Proof.
  exact (failed_initialization embedding_down_run
           (boot embedding_down_run example_tree) _
           "embedding service unavailable" eq_refl).
Defined.



Lemma no_documents_degraded_witness :
  exists s',
    NoteReader_init services_up (boot services_up empty_notes_tree) = (Ok tt, s') /\
    self s' = mkNoteReader None None None NO_NOTES_MESSAGE /\
    generator_calls (calls s') = 0 /\
    forall qs,
      ask_all services_up qs s' =
      (Ok (map (fun _ => NOT_INITIALIZED_MESSAGE) qs), s').
Proof.
  exact (no_documents_degraded services_up
           (boot services_up empty_notes_tree) _ eq_refl).
Defined.

Lemma fs_closed_nil : fs_closed [].
Proof. intros p n []. Qed.

Lemma cold_start_witness :
  startup services_up (boot services_up []) =
    (Ok tt,
     mkSystem (mkNoteReader None None None NO_NOTES_MESSAGE) [(["notes"], Dir)] []) /\
  load_any_notes services_up ["notes"] (boot services_up [(["notes"], Dir)]) =
    (Ok [], boot services_up [(["notes"], Dir)]).
Proof.
  destruct (cold_start services_up (boot services_up []) fs_closed_nil eq_refl)
    as (_ & _ & _ & L & S).
  split; [exact S | exact L].
Defined.


(* ================================================================= *)
(** ** The chunker: units *)

Section ChunkerFacts.

Import Chunker.

Lemma close_piece_concat (cur : text) : List.concat (close_piece cur) = cur.
Proof.
  destruct cur; simpl; [reflexivity | rewrite app_nil_r; reflexivity].
Qed.

(** Cutting a text at a separator loses no character. *)
Lemma split_scan_concat sep (t : text) : forall skip cur,
  List.concat (split_scan sep skip t cur) = cur ++ t.
Proof.
  induction t as [|c t IH]; intros skip cur; simpl.
  - rewrite close_piece_concat, app_nil_r. reflexivity.
  - destruct skip as [|k].
    + destruct (starts_with sep (c :: t)).
      * rewrite concat_app, close_piece_concat, IH. reflexivity.
      * rewrite IH, <- app_assoc. reflexivity.
    + rewrite IH, <- app_assoc. reflexivity.
Qed.

Lemma split_at_concat sep (t : text) : List.concat (split_at sep t) = t.
Proof. unfold split_at. rewrite split_scan_concat. reflexivity. Qed.

Lemma concat_flat_map_pieces (f : text -> list text) (pieces : list text) :
  (forall p, List.concat (f p) = p) ->
  List.concat (flat_map f pieces) = List.concat pieces.
Proof.
  intros Hf. induction pieces as [|p pieces IH]; simpl; [reflexivity|].
  rewrite concat_app, Hf, IH. reflexivity.
Qed.

(** The units of a text, one after the other, are the text. *)
Lemma split_units_concat size seps : forall t : text,
  List.concat (split_units size seps t) = t.
Proof.
  induction seps as [|sep finer IH]; intros t; simpl.
  - apply close_piece_concat.
  - rewrite concat_flat_map_pieces; [apply split_at_concat|].
    intros p. destruct (List.length p <=? size); [|apply IH].
    simpl. apply app_nil_r.
Qed.

(** The character break cuts between any two characters. *)
Lemma split_scan_characters (t : text) : forall cur,
  split_scan [] 0 t cur = close_piece cur ++ map (fun c => [c]) t.
Proof.
  induction t as [|c t IH]; intros cur; simpl.
  - rewrite app_nil_r. reflexivity.
  - rewrite IH. reflexivity.
Qed.

Lemma split_at_characters (t : text) : split_at [] t = map (fun c => [c]) t.
Proof. unfold split_at. rewrite split_scan_characters. reflexivity. Qed.

(** A separator whose first character does not occur cuts nothing. *)
Lemma split_scan_absent a sep (t : text) :
  ~ In a t ->
  forall skip cur, split_scan (a :: sep) skip t cur = close_piece (cur ++ t).
Proof.
  induction t as [|c t IH]; intros Hn skip cur; simpl.
  - rewrite app_nil_r. reflexivity.
  - assert (E : Ascii.eqb a c = false).
    { apply Ascii.eqb_neq. intros ->. apply Hn. left. reflexivity. }
    assert (Hn' : ~ In a t) by (intros I; apply Hn; right; exact I).
    rewrite E. simpl.
    destruct skip; rewrite (IH Hn'), <- app_assoc; reflexivity.
Qed.

Lemma split_at_absent a sep (t : text) :
  ~ In a t -> split_at (a :: sep) t = close_piece t.
Proof. intros Hn. unfold split_at. rewrite (split_scan_absent a sep t Hn). reflexivity. Qed.

(** With the character break among the separators, no unit is longer
    than the chunk size. *)
Lemma split_units_bounded size seps :
  1 <= size -> In [] seps ->
  forall t : text, Forall (fun u => List.length u <= size) (split_units size seps t).
Proof.
  intros Hs. induction seps as [|sep finer IH]; intros Hin t; [destruct Hin|].
  simpl. apply Forall_flat_map. apply Forall_forall. intros p Hp.
  destruct (List.length p <=? size) eqn:E.
  - constructor; [apply Nat.leb_le; exact E | constructor].
  - destruct Hin as [-> | Hin]; [|apply IH; exact Hin].
    rewrite split_at_characters in Hp. apply in_map_iff in Hp.
    destruct Hp as (c & <- & _). simpl in E.
    destruct size; [lia | discriminate].
Qed.

(** ** The chunker: merging *)

Lemma total_app (a b : list text) : total (a ++ b) = total a + total b.
Proof. unfold total. rewrite concat_app, length_app. reflexivity. Qed.

Lemma total_unit (u : text) : total [u] = List.length u.
Proof. unfold total. simpl. rewrite app_nil_r. reflexivity. Qed.

(** [trim] keeps a suffix of the run of units. *)
Lemma trim_suffix size overlap next (cur : list text) :
  exists dropped, cur = dropped ++ trim size overlap next cur.
Proof.
  induction cur as [|u cur IH]; [exists []; reflexivity|].
  cbn [trim].
  destruct ((overlap <? total (u :: cur)) || (size <? total (u :: cur) + next)).
  - destruct IH as [dropped E]. exists (u :: dropped). simpl. rewrite <- E. reflexivity.
  - exists []. reflexivity.
Qed.

(** What [trim] keeps is within the overlap and leaves room for the
    next unit, unless it keeps nothing. *)
Lemma trim_fits size overlap next (cur : list text) :
  trim size overlap next cur = [] \/
  (total (trim size overlap next cur) <= overlap /\
   total (trim size overlap next cur) + next <= size).
Proof.
  induction cur as [|u cur IH]; [left; reflexivity|].
  cbn [trim].
  destruct ((overlap <? total (u :: cur)) || (size <? total (u :: cur) + next)) eqn:E.
  - exact IH.
  - right. apply orb_false_iff in E. destruct E as [E1 E2].
    apply Nat.ltb_ge in E1, E2. split; assumption.
Qed.

Lemma trim_oversized size overlap next (cur : list text) :
  size < next -> trim size overlap next cur = [].
Proof.
  intros H. induction cur as [|u cur IH]; [reflexivity|].
  cbn [trim].
  assert (E : (size <? total (u :: cur) + next) = true) by (apply Nat.ltb_lt; lia).
  rewrite E, orb_true_r. exact IH.
Qed.

Ltac merge_step :=
  cbn [merge_units];
  match goal with
  | |- context [negb (is_nil ?cur) && (?size <? ?n)] =>
      destruct (negb (is_nil cur) && (size <? n)) eqn:?
  end.

(** Removing the overlaps leaves the fresh part of the chunk under
    construction followed by the units still to come. *)
Lemma merge_units_strip size overlap (units : list text) : forall cur carried,
  carried <= total cur ->
  strip_overlaps (merge_units size overlap units cur carried) =
  skipn carried (List.concat cur) ++ List.concat units.
Proof.
  induction units as [|u rest IH]; intros cur carried Hc.
  - cbn [merge_units]. destruct cur as [|u0 cur]; simpl.
    + rewrite skipn_nil. reflexivity.
    + unfold strip_overlaps. simpl. rewrite !app_nil_r. reflexivity.
  - merge_step.
    + unfold strip_overlaps. cbn [map List.concat fst snd].
      fold (strip_overlaps
              (merge_units size overlap rest
                 (trim size overlap (List.length u) cur ++ [u])
                 (total (trim size overlap (List.length u) cur)))).
      rewrite IH by (rewrite total_app; lia).
      rewrite concat_app. unfold total. rewrite skipn_app, skipn_all, Nat.sub_diag.
      simpl. rewrite app_nil_r. reflexivity.
    + rewrite IH by (rewrite total_app; lia).
      rewrite concat_app. unfold total in Hc. rewrite skipn_app.
      replace (carried - List.length (List.concat cur)) with 0 by lia.
      simpl. rewrite app_nil_r, <- app_assoc. reflexivity.
Qed.

(** The recorded overlaps are copies of the end of the previous chunk. *)
Lemma merge_units_shared size overlap (units : list text) : forall cur carried prev,
  carried <= total cur ->
  carried <= List.length prev ->
  firstn carried (List.concat cur) = skipn (List.length prev - carried) prev ->
  overlaps_shared prev (merge_units size overlap units cur carried).
Proof.
  induction units as [|u rest IH]; intros cur carried prev Hc Hp Hs.
  - cbn [merge_units]. destruct (is_nil cur); simpl; auto.
  - merge_step.
    + cbn [overlaps_shared]. split; [exact Hp|]. split; [exact Hs|].
      destruct (trim_suffix size overlap (List.length u) cur) as [dropped E].
      set (keep := trim size overlap (List.length u) cur) in *.
      apply IH.
      * rewrite total_app. lia.
      * rewrite E. unfold total. rewrite concat_app, length_app. lia.
      * rewrite concat_app. unfold total.
        rewrite firstn_app, firstn_all, Nat.sub_diag. simpl. rewrite app_nil_r.
        rewrite E at 1 2. rewrite concat_app, length_app.
        replace (List.length (List.concat dropped) + List.length (List.concat keep)
                 - List.length (List.concat keep))
          with (List.length (List.concat dropped)) by lia.
        rewrite skipn_app, skipn_all, Nat.sub_diag. reflexivity.
    + apply IH.
      * rewrite total_app. lia.
      * exact Hp.
      * rewrite concat_app, firstn_app. unfold total in Hc.
        replace (carried - List.length (List.concat cur)) with 0 by lia.
        simpl. rewrite app_nil_r. exact Hs.
Qed.

(** No chunk is longer than the chunk size when no unit is. *)
Lemma merge_units_bounded size overlap (units : list text) : forall cur carried,
  Forall (fun u => List.length u <= size) units ->
  total cur <= size ->
  Forall (fun span => List.length (snd span) <= size)
         (merge_units size overlap units cur carried).
Proof.
  induction units as [|u rest IH]; intros cur carried Hu Hc.
  - cbn [merge_units]. destruct (is_nil cur); repeat constructor. exact Hc.
  - inversion Hu as [|? ? Hu1 Hu2]; subst. merge_step.
    + constructor; [exact Hc|]. apply IH; [exact Hu2|].
      rewrite total_app, total_unit.
      destruct (trim_fits size overlap (List.length u) cur) as [E | [_ F]].
      * rewrite E. simpl. exact Hu1.
      * exact F.
    + apply IH; [exact Hu2|]. rewrite total_app, total_unit.
      apply andb_false_iff in Heqb. destruct Heqb as [N | L].
      * destruct cur; [simpl; exact Hu1 | discriminate].
      * apply Nat.ltb_ge in L. exact L.
Qed.

(** No recorded overlap exceeds the configured overlap. *)
Lemma merge_units_overlap_bound size overlap (units : list text) : forall cur carried,
  carried <= overlap ->
  Forall (fun span => fst span <= overlap)
         (merge_units size overlap units cur carried).
Proof.
  induction units as [|u rest IH]; intros cur carried Hc.
  - cbn [merge_units]. destruct (is_nil cur); repeat constructor. exact Hc.
  - merge_step.
    + constructor; [exact Hc|]. apply IH.
      destruct (trim_fits size overlap (List.length u) cur) as [E | [F _]].
      * rewrite E. unfold total. simpl. lia.
      * exact F.
    + apply IH. exact Hc.
Qed.

(** A unit longer than the chunk size, met while a chunk is open or
    not, becomes the chunk under construction on its own, and is then
    closed as it is. *)
Lemma merge_units_alone size overlap (u : text) (rest : list text) :
  size < List.length u ->
  In (0, u) (merge_units size overlap rest [u] 0).
Proof.
  intros H. destruct rest as [|u2 rest]; cbn [merge_units is_nil negb andb].
  - left. simpl. rewrite app_nil_r. reflexivity.
  - assert (E : (size <? total [u] + List.length u2) = true).
    { apply Nat.ltb_lt. rewrite total_unit. lia. }
    rewrite E. left. simpl. rewrite app_nil_r. reflexivity.
Qed.

Lemma merge_units_oversized size overlap (u : text) (units : list text) :
  size < List.length u ->
  forall cur carried,
  In u units -> carried <= total cur ->
  In (0, u) (merge_units size overlap units cur carried).
Proof.
  intros H. induction units as [|u1 rest IH]; intros cur carried Hin Hc;
    [destruct Hin|].
  merge_step.
  - destruct Hin as [-> | Hin].
    + right. rewrite (trim_oversized size overlap _ cur H).
      apply merge_units_alone. exact H.
    + right. apply IH; [exact Hin|]. rewrite total_app. lia.
  - destruct Hin as [-> | Hin].
    + apply andb_false_iff in Heqb. destruct Heqb as [N | L].
      * destruct cur; [|discriminate]. unfold total in Hc. simpl in Hc.
        replace carried with 0 by lia. apply merge_units_alone. exact H.
      * apply Nat.ltb_ge in L. lia.
    + apply IH; [exact Hin|]. rewrite total_app. lia.
Qed.

(** ** The chunker: from texts to documents *)

Lemma string_of_list_ascii_app (a b : text) :
  string_of_list_ascii (a ++ b) = string_of_list_ascii a +:+ string_of_list_ascii b.
Proof.
  induction a as [|c a IH]; simpl; [reflexivity | rewrite IH; reflexivity].
Qed.

Lemma string_of_list_ascii_length (a : text) :
  String.length (string_of_list_ascii a) = List.length a.
Proof.
  induction a as [|c a IH]; simpl; [reflexivity | rewrite IH; reflexivity].
Qed.

Lemma concat_of_texts (l : list text) :
  String.concat "" (map string_of_list_ascii l) = string_of_list_ascii (List.concat l).
Proof.
  induction l as [|a l IH]; [reflexivity|].
  cbn [map List.concat]. rewrite string_of_list_ascii_app, <- IH.
  destruct l as [|b l]; simpl.
  - clear IH. induction (string_of_list_ascii a) as [|c s IHs]; simpl;
      [reflexivity | rewrite <- IHs; reflexivity].
  - reflexivity.
Qed.

Lemma substring_of_text (s : string) : forall n m,
  substring n m s = string_of_list_ascii (firstn m (skipn n (list_ascii_of_string s))).
Proof.
  induction s as [|c s IH]; intros n m.
  - destruct n, m; reflexivity.
  - destruct n as [|n].
    + destruct m as [|m]; [reflexivity|]. simpl. rewrite (IH 0 m). reflexivity.
    + simpl. apply IH.
Qed.

Lemma contains_char_In c (s : string) :
  str_contains_char c s = false -> ~ In c (list_ascii_of_string s).
Proof.
  induction s as [|a s IH]; simpl; intros H; [tauto|].
  apply orb_false_iff in H. destruct H as [E H].
  apply Ascii.eqb_neq in E. intros [-> | I]; [congruence | exact (IH H I)].
Qed.

Lemma number_chunks_texts source (spans : list (nat * text)) : forall i,
  map chunk_text (number_chunks source i spans) =
  map (fun p => string_of_list_ascii (snd p)) spans.
Proof.
  induction spans as [|[o t] spans IH]; intros i; [reflexivity|].
  simpl. rewrite IH. reflexivity.
Qed.

Lemma number_chunks_unique source (spans : list (nat * text)) : forall i,
  map (fun oc => unique_text (fst oc) (snd oc))
      (combine (map fst spans) (number_chunks source i spans)) =
  map (fun p => string_of_list_ascii (skipn (fst p) (snd p))) spans.
Proof.
  induction spans as [|[o t] spans IH]; intros i; [reflexivity|].
  cbn [map fst snd number_chunks combine]. rewrite IH.
  unfold unique_text, str_drop. cbn [chunk_text].
  rewrite list_ascii_of_string_of_list_ascii. reflexivity.
Qed.

Lemma number_chunks_length source (spans : list (nat * text)) : forall i,
  List.length (number_chunks source i spans) = List.length spans.
Proof.
  induction spans as [|[o t] spans IH]; intros i; [reflexivity|].
  simpl. rewrite IH. reflexivity.
Qed.

(** C3. For every source document and every configuration, the chunks
    in sequence order, each without its overlap, concatenate to the
    document text exactly. The part removed from a chunk is the text it
    repeats from the end of the chunk before it (the first chunk repeats
    nothing), and there is one overlap per chunk. *)
Theorem chunks_reassemble_document (cfg : ChunkerConfig) (doc : SourceDocument) :
  reassemble (chunk_overlaps cfg doc) (chunk_document cfg doc) = rawText doc /\
  overlaps_shared []
    (chunk_spans cfg separators (list_ascii_of_string (rawText doc))) /\
  List.length (chunk_overlaps cfg doc) = List.length (chunk_document cfg doc).
Proof.
  unfold reassemble, chunk_overlaps, chunk_document. split; [|split].
  - rewrite number_chunks_unique.
    rewrite <- (map_map (fun p => skipn (fst p) (snd p)) string_of_list_ascii).
    rewrite concat_of_texts.
    change (List.concat (map (fun p => skipn (fst p) (snd p)) ?l))
      with (strip_overlaps l).
    unfold chunk_spans. rewrite merge_units_strip by (unfold total; simpl; lia).
    rewrite split_units_concat. simpl. apply string_of_list_ascii_of_string.
  - unfold chunk_spans. apply merge_units_shared; simpl; auto.
  - rewrite length_map, number_chunks_length. reflexivity.
Qed.

(** C4. For every chunk size, overlap and separator hierarchy: when no
    unit of the text is longer than the chunk size, no chunk is; a unit
    that is longer is a chunk by itself, whole and without overlap. With
    the configured hierarchy, which ends in the character break, and a
    positive chunk size, every chunk of every document is within the
    chunk size. *)
Theorem chunk_length_bounded (cfg : ChunkerConfig) (seps : list text) (t : text) :
  (Forall (fun u => List.length u <= chunkSize cfg)
          (split_units (chunkSize cfg) seps t) ->
   Forall (fun span => List.length (snd span) <= chunkSize cfg)
          (chunk_spans cfg seps t)) /\
  (forall u,
     In u (split_units (chunkSize cfg) seps t) ->
     chunkSize cfg < List.length u ->
     In (0, u) (chunk_spans cfg seps t)) /\
  (0 < chunkSize cfg ->
   forall doc c,
     In c (chunk_document cfg doc) ->
     String.length (chunk_text c) <= chunkSize cfg).
Proof.
  split; [|split].
  - intros Hu. unfold chunk_spans. apply merge_units_bounded; [exact Hu|].
    unfold total. simpl. lia.
  - intros u Hin Hbig. unfold chunk_spans.
    apply merge_units_oversized; [exact Hbig | exact Hin | unfold total; simpl; lia].
  - intros Hpos doc c Hin.
    assert (B : Forall (fun span => List.length (snd span) <= chunkSize cfg)
                  (chunk_spans cfg separators (list_ascii_of_string (rawText doc)))).
    { unfold chunk_spans. apply merge_units_bounded.
      - apply split_units_bounded; [lia|]. right; right; right; left; reflexivity.
      - unfold total. simpl. lia. }
    apply (in_map chunk_text) in Hin. unfold chunk_document in Hin.
    rewrite number_chunks_texts in Hin. apply in_map_iff in Hin.
    destruct Hin as (span & <- & Hspan).
    rewrite string_of_list_ascii_length.
    rewrite Forall_forall in B. apply B. exact Hspan.
Qed.

(** ** The scenario: 250 characters without separators *)

(** A text longer than the chunk size and free of line feeds and spaces
    is split down to its characters. *)
Lemma split_units_characters size (t : text) :
  no_natural_separator t ->
  1 <= size -> size < List.length t ->
  split_units size separators t = map (fun c => [c]) t.
Proof.
  intros [Hlf Hsp] Hs Hl.
  assert (Ht : close_piece t = [t]) by (destruct t; [simpl in Hl; lia | reflexivity]).
  assert (Hb : (List.length t <=? size) = false) by (apply Nat.leb_gt; exact Hl).
  unfold separators. cbn [split_units].
  rewrite (split_at_absent LF [LF] t Hlf), Ht. cbn [flat_map]. rewrite Hb, app_nil_r.
  rewrite (split_at_absent LF [] t Hlf), Ht. cbn [flat_map]. rewrite Hb, app_nil_r.
  rewrite (split_at_absent SP [] t Hsp), Ht. cbn [flat_map]. rewrite Hb, app_nil_r.
  rewrite split_at_characters.
  clear - Hs. induction t as [|c t IH]; [reflexivity|].
  cbn [map flat_map]. rewrite IH.
  destruct size; [lia | reflexivity].
Qed.

Ltac next_character t H :=
  destruct t as [|? t]; [discriminate H|];
  apply eq_add_S in H.

Lemma chunk_spans_scenario (t : text) :
  List.length t = 250 ->
  no_natural_separator t ->
  chunk_spans scenario_config separators t =
  [(0, firstn 100 t); (20, firstn 100 (skipn 80 t)); (20, skipn 160 t)] /\
  skipn 80 (firstn 100 t) = firstn 20 (firstn 100 (skipn 80 t)) /\
  skipn 80 (firstn 100 (skipn 80 t)) = firstn 20 (skipn 160 t) /\
  firstn 90 (skipn 160 t) = skipn 160 t.
Proof.
  intros H Hn. unfold chunk_spans. cbn [scenario_config chunkSize chunkOverlap].
  rewrite (split_units_characters 100 t Hn) by lia.
  clear Hn. cbn [List.length] in H.
  do 250 (next_character t H).
  destruct t; [|discriminate H].
  repeat split; vm_compute; reflexivity.
Qed.

Lemma list_ascii_of_string_length (s : string) :
  List.length (list_ascii_of_string s) = String.length s.
Proof.
  induction s as [|c s IH]; simpl; [reflexivity | rewrite IH; reflexivity].
Qed.

Lemma str_drop_slice n i j (s : string) :
  str_drop n (str_slice i j s) =
  string_of_list_ascii (skipn n (firstn (j - i) (skipn i (list_ascii_of_string s)))).
Proof.
  unfold str_drop, str_slice.
  rewrite substring_of_text, list_ascii_of_string_of_list_ascii. reflexivity.
Qed.

Lemma str_take_slice n i j (s : string) :
  str_take n (str_slice i j s) =
  string_of_list_ascii (firstn n (firstn (j - i) (skipn i (list_ascii_of_string s)))).
Proof.
  unfold str_take, str_slice.
  rewrite (substring_of_text (substring i (j - i) s)), substring_of_text,
    list_ascii_of_string_of_list_ascii.
  reflexivity.
Qed.

(** C9. With chunk size 100 and overlap 20, a document of 250
    characters without line feed or space has exactly three chunks: the
    characters 0 to 100, 80 to 180 and 160 to 250 of its text. The
    second and the third each repeat 20 characters, and these are the
    last 20 characters of the chunk before. *)
Theorem scenario_three_chunks (doc : SourceDocument) :
  String.length (rawText doc) = 250 ->
  str_contains_char LF (rawText doc) = false ->
  str_contains_char SP (rawText doc) = false ->
  chunk_document scenario_config doc =
    [mkChunk (str_slice 0 100 (rawText doc)) (Chunker.path doc) 0;
     mkChunk (str_slice 80 180 (rawText doc)) (Chunker.path doc) 1;
     mkChunk (str_slice 160 250 (rawText doc)) (Chunker.path doc) 2] /\
  chunk_overlaps scenario_config doc = [0; 20; 20] /\
  str_drop 80 (str_slice 0 100 (rawText doc)) =
    str_take 20 (str_slice 80 180 (rawText doc)) /\
  str_drop 80 (str_slice 80 180 (rawText doc)) =
    str_take 20 (str_slice 160 250 (rawText doc)).
Proof.
  intros Hlen Hlf Hsp.
  assert (Ht : List.length (list_ascii_of_string (rawText doc)) = 250)
    by (rewrite list_ascii_of_string_length; exact Hlen).
  assert (Hn : no_natural_separator (list_ascii_of_string (rawText doc)))
    by (split; apply contains_char_In; assumption).
  destruct (chunk_spans_scenario _ Ht Hn) as (E & S1 & S2 & S3).
  unfold chunk_document, chunk_overlaps. rewrite E.
  rewrite !str_drop_slice, !str_take_slice.
  unfold str_slice. rewrite !substring_of_text.
  change (100 - 0) with 100. change (180 - 80) with 100. change (250 - 160) with 90.
  rewrite !skipn_O. cbn [number_chunks map fst].
  rewrite S1, S2, S3. repeat split.
Qed.

End ChunkerFacts.

Lemma scenario_three_chunks_witness :
  Chunker.chunk_overlaps Chunker.scenario_config unbroken_document = [0; 20; 20] /\
  map Chunker.sequenceIndex
      (Chunker.chunk_document Chunker.scenario_config unbroken_document) = [0; 1; 2].
Proof.
  destruct (scenario_three_chunks unbroken_document eq_refl eq_refl eq_refl)
    as (D & O & _).
  split; [exact O | rewrite D; reflexivity].
Defined.

Lemma chunk_length_bounded_witness :
  Forall (fun span => List.length (snd span) <= 10)
         (Chunker.chunk_spans small_config words_only short_words) /\
  In (0, list_ascii_of_string " dddddddddddddd")
     (Chunker.chunk_spans small_config words_only long_word) /\
  Forall (fun c => String.length (Chunker.chunk_text c) <= 100)
         (Chunker.chunk_document Chunker.scenario_config unbroken_document).
Proof.
  split; [|split].
  - apply (proj1 (chunk_length_bounded small_config words_only short_words)).
    vm_compute. repeat constructor.
  - apply (proj1 (proj2 (chunk_length_bounded small_config words_only long_word))).
    + vm_compute. tauto.
    + vm_compute. lia.
  - apply Forall_forall. intros c Hc.
    apply (proj2 (proj2 (chunk_length_bounded Chunker.scenario_config [] []))
             ltac:(vm_compute; lia) unbroken_document c Hc).
Defined.

(* ================================================================= *)
(** * Further properties of the program *)

(** ** Which files are loaded *)

Lemma str_length_append a b :
  String.length (a +:+ b) = String.length a + String.length b.
Proof.
  induction a as [|c a IH]; simpl; [reflexivity | rewrite IH; reflexivity].
Qed.

Lemma substring_all s : substring 0 (String.length s) s = s.
Proof.
  induction s as [|c s IH]; simpl; [reflexivity | rewrite IH; reflexivity].
Qed.

Lemma substring_skip stem : forall m s,
  substring (String.length stem) m (stem +:+ s) = substring 0 m s.
Proof.
  induction stem as [|c stem IH]; intros m s; [reflexivity | apply IH].
Qed.

Lemma str_split_at s : forall n,
  n <= String.length s ->
  s = substring 0 n s +:+ substring n (String.length s - n) s.
Proof.
  induction s as [|c s IH]; intros [|n] H; simpl in *; try reflexivity; try lia.
  - rewrite substring_all. reflexivity.
  - rewrite <- IH by lia. reflexivity.
Qed.

(** [name.endswith(suffix)] holds exactly of the names [stem + suffix]. *)
Lemma str_ends_with_iff suffix name :
  str_ends_with suffix name = true <-> exists stem, name = stem +:+ suffix.
Proof.
  unfold str_ends_with. split.
  - intros H. apply andb_true_iff in H. destruct H as [Hl He].
    apply Nat.leb_le in Hl. apply String.eqb_eq in He.
    exists (substring 0 (String.length name - String.length suffix) name).
    pose proof (str_split_at name (String.length name - String.length suffix)) as S.
    replace (String.length name - (String.length name - String.length suffix))
      with (String.length suffix) in S by lia.
    rewrite He in S. apply S. lia.
  - intros [stem ->]. rewrite str_length_append.
    replace (String.length stem + String.length suffix - String.length suffix)
      with (String.length stem) by lia.
    rewrite substring_skip, substring_all, String.eqb_refl.
    assert (E : (String.length suffix <=? String.length stem + String.length suffix) = true)
      by (apply Nat.leb_le; lia).
    rewrite E. reflexivity.
Qed.

(** [dir.rglob("*" + suffix)] lists exactly the entries of the tree that
    lie below [dir], at any depth, and whose name ends in [suffix]. *)
Lemma rglob_iff (t : file_system) dir suffix p :
  In p (rglob t dir ("*" +:+ suffix)) <->
  is_dir t dir = true /\ (exists n, In (p, n) t) /\
  strictly_under dir p = true /\ exists stem, last p "" = stem +:+ suffix.
Proof.
  unfold rglob. change ("*" +:+ suffix) with (String "*" suffix).
  destruct (is_dir t dir).
  - rewrite in_map_iff. split.
    + intros ([q n] & <- & H). apply filter_In in H. destruct H as [Hin Hm].
      apply andb_true_iff in Hm. destruct Hm as [Hu Hg]. simpl in *.
      apply str_ends_with_iff in Hg. repeat split; eauto.
    + intros (_ & [n Hin] & Hu & Hs). exists (p, n). split; [reflexivity|].
      apply filter_In. split; [exact Hin|]. simpl.
      rewrite Hu. apply str_ends_with_iff in Hs. exact Hs.
  - simpl. split; [tauto | intros [H _]; discriminate].
Qed.

(** The files selected for a loader are the entries of the tree below
    the notes directory, at any depth, whose name ends in one of the
    extensions of that loader. *)
Lemma note_files_iff (t : file_system) (dir : path) (k : loader_kind) (p : path) :
  In (k, p) (note_files t dir) <->
  is_dir t dir = true /\ (exists n, In (p, n) t) /\
  strictly_under dir p = true /\
  exists stem suffix, In suffix (loader_suffixes k) /\ last p "" = stem +:+ suffix.
Proof.
  unfold note_files. rewrite !in_app_iff, !in_map_iff.
  assert (R : forall suffix,
            (exists x, (TextLoader, x) = (k, p) /\ In x (rglob t dir ("*" +:+ suffix)))
            \/ (exists x, (PyPDFLoader, x) = (k, p) /\ In x (rglob t dir ("*" +:+ suffix)))
            \/ (exists x, (Docx2txtLoader, x) = (k, p) /\ In x (rglob t dir ("*" +:+ suffix)))
            -> In p (rglob t dir ("*" +:+ suffix))).
  { intros suffix [(x & E & H) | [(x & E & H) | (x & E & H)]];
      inversion E; subst; exact H. }
  split.
  - intros [(x & E & H) | [(x & E & H) | [(x & E & H) | (x & E & H)]]];
      inversion E; subst; apply rglob_iff in H;
      destruct H as (D & I & U & stem & S);
      (repeat split; [exact D | exact I | exact U |]).
    + exists stem, ".md". split; [left; reflexivity | exact S].
    + exists stem, ".txt". split; [right; left; reflexivity | exact S].
    + exists stem, ".pdf". split; [left; reflexivity | exact S].
    + exists stem, ".docx". split; [left; reflexivity | exact S].
  - intros (D & I & U & stem & suffix & Hs & S).
    assert (G : In p (rglob t dir ("*" +:+ suffix)))
      by (apply rglob_iff; repeat split; eauto).
    destruct k; simpl in Hs.
    + destruct Hs as [<- | [<- | []]].
      * left. exists p. split; [reflexivity | exact G].
      * right; left. exists p. split; [reflexivity | exact G].
    + destruct Hs as [<- | []]. right; right; left.
      exists p. split; [reflexivity | exact G].
    + destruct Hs as [<- | []]. right; right; right.
      exists p. split; [reflexivity | exact G].
Qed.






(** ** Paths and their names *)

Lemma split_of_join (p : path) :
  p <> [] ->
  Forall (fun c => str_contains_char "/" c = false) p ->
  split_on_char "/" (str_join "/" p) = p.
Proof.
  intros N F. induction F as [|a p Ha F IH]; [contradiction|].
  destruct p as [|b p].
  - simpl. apply split_on_char_absent. exact Ha.
  - change (str_join "/" (a :: b :: p)) with (a +:+ String "/" (str_join "/" (b :: p))).
    rewrite split_on_char_append, (split_on_char_absent _ _ Ha), IH by discriminate.
    reflexivity.
Qed.

Lemma Path_parses_back (p : path) : path_wf p -> Path (path_str p) = p.
Proof.
  intros W. destruct p as [|a p]; [reflexivity|].
  unfold Path, path_str. rewrite split_of_join.
  - apply forallb_filter_id. apply forallb_forall. intros c Hc.
    unfold path_wf in W. rewrite Forall_forall in W. apply (W c Hc).
  - discriminate.
  - unfold path_wf in W. apply Forall_impl with (2 := W). intros c [_ H]. exact H.
Qed.

(** X3. Writing a well-formed path as a string and parsing it again
    gives the path back; in particular the name read off [str(fp)], the
    string the loaders are given, is the last component of [fp]. *)
Theorem Path_of_path_str (p : path) :
  path_wf p ->
  Path (path_str p) = p /\ Path_name (path_str p) = last p "".
Proof.
  intros W. pose proof (Path_parses_back p W) as E.
  split; [exact E|]. unfold Path_name. rewrite E. reflexivity.
Qed.

Lemma Path_of_path_str_witness :
  Path (path_str ["notes"; "sub"; "a.md"]) = ["notes"; "sub"; "a.md"] /\
  Path_name (path_str ["notes"; "sub"; "a.md"]) = "a.md".
Proof.
  apply (Path_of_path_str ["notes"; "sub"; "a.md"]).
  repeat constructor.
Defined.

(** ** Formatting: missing sources and previews *)

Lemma dict_get_absent d key default :
  key_absent d key -> dict_get d key default = default.
Proof.
  intros A. induction d as [|[k v] d IH]; [reflexivity|]. simpl.
  destruct (String.eqb k key) eqn:E.
  - apply String.eqb_eq in E. subst. exfalso. apply (A v). left. reflexivity.
  - apply IH. intros v' I. apply (A v'). right. exact I.
Qed.

(** X5. A document without a ["source"] entry in its metadata is
    attributed to [unknown.md] in the context given to the chat model,
    and to [unknown] in the display text: the two formatters use
    different defaults. *)
Theorem missing_source_defaults (doc : Document) :
  key_absent (metadata doc) "source" ->
  format_docs [doc] = "[SOURCE: unknown.md]" +:+ nl +:+ page_content doc /\
  format_notes_for_display [doc] = "📄 unknown" +:+ nl +:+ preview doc +:+ "...".
Proof.
  intros A. unfold format_docs, format_notes_for_display.
  cbn [format_docs_loop display_entries app str_join String.concat].
  rewrite !(dict_get_absent _ _ _ A). split; reflexivity.
Qed.

Lemma missing_source_defaults_witness :
  format_docs [orphan_chunk] = "[SOURCE: unknown.md]" +:+ nl +:+ "Rome is in Italy." /\
  format_notes_for_display [orphan_chunk] =
    "📄 unknown" +:+ nl +:+ "Rome is in Italy." +:+ "...".
Proof.
  apply (missing_source_defaults orphan_chunk).
  intros v [E | []]. discriminate E.
Defined.

Lemma display_entries_map docs : forall formatted,
  display_entries docs formatted = formatted ++ map display_entry docs.
Proof.
  induction docs as [|d docs IH]; intros formatted.
  - simpl. rewrite app_nil_r. reflexivity.
  - cbn [display_entries map]. rewrite IH, <- app_assoc. reflexivity.
Qed.

Lemma take_chars_count n : forall s,
  count_chars (take_chars n s) = Nat.min n (count_chars s).
Proof.
  intros s. revert n. induction s as [|c s IH]; intros n; simpl.
  - rewrite Nat.min_0_r. reflexivity.
  - destruct (is_continuation c) eqn:E; simpl.
    + rewrite E. apply IH.
    + destruct n as [|n]; [reflexivity|]. simpl. rewrite E, IH. reflexivity.
Qed.

Lemma take_chars_prefix n : forall s, exists rest, s = take_chars n s +:+ rest.
Proof.
  intros s. revert n. induction s as [|c s IH]; intros n; simpl.
  - exists "". reflexivity.
  - destruct (is_continuation c).
    + destruct (IH n) as [rest E]. exists rest. simpl. rewrite <- E. reflexivity.
    + destruct n as [|n]; [exists (String c s); reflexivity|].
      destruct (IH n) as [rest E]. exists rest. simpl. rewrite <- E. reflexivity.
Qed.

Lemma take_chars_short n : forall s, count_chars s <= n -> take_chars n s = s.
Proof.
  intros s. revert n. induction s as [|c s IH]; intros n H; simpl in *;
    [reflexivity|].
  destruct (is_continuation c).
  - rewrite IH by exact H. reflexivity.
  - destruct n as [|n]; [lia|]. rewrite IH by lia. reflexivity.
Qed.

(** X6. The display text has one entry per document, in the order of the
    documents, joined by a blank line. The preview in an entry is a
    prefix of the document text and has [min 200 (len text)] characters,
    so a text of at most 200 characters is shown whole; the ellipsis
    follows in every case, cut or not. *)
Theorem format_notes_for_display_previews (docs : list Document) :
  format_notes_for_display docs = str_join (nl +:+ nl) (map display_entry docs) /\
  Forall (fun doc =>
            count_chars (preview doc) = Nat.min 200 (count_chars (page_content doc)) /\
            (exists rest, page_content doc = preview doc +:+ rest) /\
            (count_chars (page_content doc) <= 200 ->
             display_entry doc =
               "📄 " +:+ Path_name (dict_get (metadata doc) "source" "unknown") +:+ nl +:+
               page_content doc +:+ "..."))
         docs.
Proof.
  split.
  - unfold format_notes_for_display. rewrite display_entries_map. reflexivity.
  - apply Forall_forall. intros doc _. unfold preview. split; [|split].
    + apply take_chars_count.
    + apply take_chars_prefix.
    + intros H. unfold display_entry, preview. rewrite (take_chars_short _ _ H).
      reflexivity.
Qed.

Lemma format_notes_for_display_previews_witness :
  format_notes_for_display [accented_chunk] =
    "📄 été.md" +:+ nl +:+ "Café crème à Orléans" +:+ "..." /\
  count_chars (preview accented_chunk) = 20.
Proof.
  destruct (format_notes_for_display_previews [accented_chunk]) as [E F].
  inversion F as [|? ? (C & _ & S) _]; subst.
  split.
  - rewrite E. cbn [map str_join String.concat].
    rewrite S by (vm_compute; lia). reflexivity.
  - rewrite C. reflexivity.
Defined.

(** ** Creating the notes directory *)

Lemma fs_lookup_kept (t added : file_system) q n :
  fs_lookup t q = Some n -> fs_lookup (t ++ added) q = Some n.
Proof. intros H. rewrite fs_lookup_app, H. reflexivity. Qed.

Lemma fs_lookup_new (t : file_system) q :
  fs_lookup t q = None -> fs_lookup (t ++ [(q, Dir)]) q = Some Dir.
Proof.
  intros H. rewrite fs_lookup_app, H. simpl.
  rewrite (proj2 (path_eqb_eq q q) eq_refl). reflexivity.
Qed.

(** A successful [mkdir] only appends directories, and afterwards every
    prefix of the path is a directory. *)
Lemma mkdir_from_creates todo : forall (t : file_system) done t',
  mkdir_from t done todo = Ok t' ->
  (exists added, t' = t ++ added /\ Forall (fun e => snd e = Dir) added) /\
  (forall pre post, pre <> [] -> todo = pre ++ post ->
     fs_lookup t' (done ++ pre) = Some Dir).
Proof.
  induction todo as [|c todo IH]; intros t done t' H.
  - inversion H; subst. split.
    + exists []. rewrite app_nil_r. split; [reflexivity | constructor].
    + intros [|a pre] post N E; [contradiction | discriminate].
  - cbn [mkdir_from] in H.
    destruct (fs_lookup t (done ++ [c])) as [[|]|] eqn:L; [| discriminate |].
    + destruct (IH _ _ _ H) as [(added & E & F) P]. split.
      * exists added. split; assumption.
      * intros [|a pre] post N Ep; [contradiction|].
        inversion Ep; subst a todo.
        replace (done ++ c :: pre) with ((done ++ [c]) ++ pre)
          by (rewrite <- app_assoc; reflexivity).
        destruct pre as [|b pre].
        -- rewrite app_nil_r, E. apply fs_lookup_kept. exact L.
        -- apply (P (b :: pre) post); [discriminate | reflexivity].
    + destruct (IH _ _ _ H) as [(added & E & F) P]. split.
      * exists ((done ++ [c], Dir) :: added). split.
        -- rewrite E, <- app_assoc. reflexivity.
        -- constructor; [reflexivity | exact F].
      * intros [|a pre] post N Ep; [contradiction|].
        inversion Ep; subst a todo.
        replace (done ++ c :: pre) with ((done ++ [c]) ++ pre)
          by (rewrite <- app_assoc; reflexivity).
        destruct pre as [|b pre].
        -- rewrite app_nil_r, E. apply fs_lookup_kept, fs_lookup_new. exact L.
        -- apply (P (b :: pre) post); [discriminate | reflexivity].
Qed.

Lemma mkdir_from_present todo : forall (t : file_system) done,
  (forall pre post, pre <> [] -> todo = pre ++ post ->
     fs_lookup t (done ++ pre) = Some Dir) ->
  mkdir_from t done todo = Ok t.
Proof.
  induction todo as [|c todo IH]; intros t done P; [reflexivity|].
  cbn [mkdir_from]. rewrite (P [c] todo) by (discriminate || reflexivity).
  apply IH. intros pre post N E.
  rewrite <- app_assoc. apply (P (c :: pre) post); [discriminate|].
  simpl. rewrite E. reflexivity.
Qed.


(** X7. For a well-formed path without [".."]: when
    [mkdir(parents=True, exist_ok=True)] succeeds, the path and each of
    its ancestors is a directory, every entry that was in the tree is
    still there unchanged, and what was added are directories only. *)
Theorem mkdir_creates_and_keeps (t t' : file_system) (p : path) :
  path_plain p ->
  mkdir_parents_exist_ok t p = Ok t' ->
  (forall pre post, p = pre ++ post -> is_dir t' pre = true) /\
  (forall q n, fs_lookup t q = Some n -> fs_lookup t' q = Some n) /\
  exists added, t' = t ++ added /\ Forall (fun e => snd e = Dir) added.
Proof.
  intros _ H. destruct (mkdir_from_creates p t [] t' H) as [(added & E & F) P].
  split; [|split].
  - intros [|a pre] post Ep; [reflexivity|].
    assert (Q : fs_lookup t' (a :: pre) = Some Dir)
      by (apply (P (a :: pre) post); [discriminate | exact Ep]).
    unfold is_dir. rewrite Q. reflexivity.
  - intros q n L. rewrite E. apply fs_lookup_kept. exact L.
  - exists added. split; assumption.
Qed.

Lemma mkdir_creates_and_keeps_witness :
  is_dir [(["notes"], Dir); (["notes"; "a.md"], File); (["notes"; "2024"], Dir)]
         ["notes"; "2024"] = true /\
  fs_lookup [(["notes"], Dir); (["notes"; "a.md"], File); (["notes"; "2024"], Dir)]
            ["notes"; "a.md"] = Some File.
Proof.
  assert (P : path_plain ["notes"; "2024"]).
  { split; [repeat constructor|]. simpl. intuition discriminate. }
  destruct (mkdir_creates_and_keeps
              [(["notes"], Dir); (["notes"; "a.md"], File)] _ ["notes"; "2024"] P eq_refl)
    as (D & K & _).
  split.
  - apply (D ["notes"; "2024"] []). reflexivity.
  - apply K. reflexivity.
Defined.

(** X8. [mkdir(parents=True, exist_ok=True)] is idempotent: run again on
    the tree it produced, it succeeds and changes nothing. *)
Theorem mkdir_idempotent (t t' : file_system) (p : path) :
  mkdir_parents_exist_ok t p = Ok t' ->
  mkdir_parents_exist_ok t' p = Ok t'.
Proof.
  intros H. destruct (mkdir_from_creates p t [] t' H) as [_ P].
  apply mkdir_from_present. exact P.
Qed.

Lemma mkdir_idempotent_witness :
  mkdir_parents_exist_ok [(["notes"], Dir); (["notes"; "2024"], Dir)] ["notes"; "2024"] =
  Ok [(["notes"], Dir); (["notes"; "2024"], Dir)].
Proof.
  apply (mkdir_idempotent [] _ ["notes"; "2024"]). reflexivity.
Defined.



(** ** The loader, the initialization and the queries, call by call *)

Section MoreProgramFacts.

Variable X : collaborators.

Lemma load_files_log files : forall docs (s : system X),
  self (snd (load_files X files docs s)) = self s /\
  fs (snd (load_files X files docs s)) = fs s /\
  exists n,
    n <= List.length files /\
    calls (snd (load_files X files docs s)) =
      calls s ++ map loader_event (firstn n files) /\
    (forall d, fst (load_files X files docs s) = Ok d -> n = List.length files).
Proof.
  induction files as [|[k fp] files IH]; intros docs s.
  - simpl. repeat split. exists 0. rewrite app_nil_r. repeat split. lia.
  - cbn [load_files]. unfold bind, external.
    destruct (load_file X (calls s) k (path_str fp)) as [loaded | e].
    + destruct (IH (docs ++ loaded)
                  (mkSystem (self s) (fs s) (calls s ++ [LoaderCall k (path_str fp)])))
        as (Hs & Hf & n & Hn & Hc & Hok).
      split; [exact Hs|]. split; [exact Hf|].
      exists (S n). split; [simpl; lia|]. split.
      * rewrite Hc. cbn [calls firstn map]. rewrite <- app_assoc. reflexivity.
      * intros d Hd. simpl. rewrite (Hok d Hd). reflexivity.
    + simpl. repeat split. exists 1. split; [lia|]. split; [reflexivity|].
      intros d Hd. discriminate Hd.
Qed.

(** X10. [load_any_notes] changes neither the [NoteReader] object nor
    the directory tree. It opens the files it selects in order, text
    files first, each at most once, and nothing else: the calls it adds
    to the log are the loader calls of an initial segment of that list,
    the whole list when it returns normally. *)
Theorem load_any_notes_opens_in_order (dir : path) (s : system X) :
  self (snd (load_any_notes X dir s)) = self s /\
  fs (snd (load_any_notes X dir s)) = fs s /\
  exists n,
    n <= List.length (note_files (fs s) dir) /\
    calls (snd (load_any_notes X dir s)) =
      calls s ++ map loader_event (firstn n (note_files (fs s) dir)) /\
    (forall docs, fst (load_any_notes X dir s) = Ok docs ->
       n = List.length (note_files (fs s) dir)).
Proof.
  rewrite load_any_notes_as_files. apply load_files_log.
Qed.

(** What [initialize_notes] adds to the log, and that it returns. *)
Lemma initialize_notes_trace (s : system X) :
  fst (initialize_notes X s) = Ok tt /\
  fs (snd (initialize_notes X s)) = fs s /\
  exists loads tail,
    calls (snd (initialize_notes X s)) = calls s ++ loads ++ tail /\
    forallb is_loader_call loads = true /\
    (tail = []
     \/ (exists raw e,
           tail = [SplitterCall raw] /\
           split_documents X (calls s ++ loads) raw = Raise e)
     \/ (exists raw docs,
           tail = [SplitterCall raw; IndexBuildCall docs] /\
           split_documents X (calls s ++ loads) raw = Ok docs)).
Proof.
  rewrite initialize_notes_unfold.
  pose proof (initialize_notes_body_cases X s) as C.
  pose proof (load_any_notes_frame X NOTES_PATH s) as F. simpl in F.
  destruct (load_any_notes X NOTES_PATH s) as [[raw | e0] s1]; simpl in F;
    destruct F as (_ & Ff & loads & Fc & Fl).
  - destruct raw as [|d raw].
    + rewrite C. simpl. split; [reflexivity|]. split; [exact Ff|].
      exists loads, []. rewrite app_nil_r. repeat split; auto.
    + cbv zeta in C.
      destruct (split_documents X (calls s1) (d :: raw)) as [docs | e1] eqn:Sp.
      * assert (T : exists loads0 tail,
                  calls s1 ++ [SplitterCall (d :: raw); IndexBuildCall docs] =
                    calls s ++ loads0 ++ tail /\
                  forallb is_loader_call loads0 = true /\
                  (tail = []
                   \/ (exists raw0 e,
                         tail = [SplitterCall raw0] /\
                         split_documents X (calls s ++ loads0) raw0 = Raise e)
                   \/ (exists raw0 docs0,
                         tail = [SplitterCall raw0; IndexBuildCall docs0] /\
                         split_documents X (calls s ++ loads0) raw0 = Ok docs0))).
        { exists loads, [SplitterCall (d :: raw); IndexBuildCall docs].
          split; [rewrite Fc, <- app_assoc; reflexivity|].
          split; [exact Fl|]. right; right. exists (d :: raw), docs.
          split; [reflexivity|]. rewrite <- Fc. exact Sp. }
        destruct (FAISS_from_documents X _ docs) as [store | e2]; rewrite C;
          (split; [reflexivity|]); cbn [snd fs calls logged with_notes_content];
          rewrite <- app_assoc; (split; [exact Ff | exact T]).
      * rewrite C. split; [reflexivity|]. simpl. split; [exact Ff|].
        exists loads, [SplitterCall (d :: raw)].
        split; [rewrite Fc, <- app_assoc; reflexivity|].
        split; [exact Fl|]. right; left. exists (d :: raw), e1.
        split; [reflexivity|]. rewrite <- Fc. exact Sp.
  - rewrite C. simpl. split; [reflexivity|]. split; [exact Ff|].
    exists loads, []. rewrite app_nil_r. repeat split; auto.
Qed.

(** X11. [initialize_notes] always returns normally and leaves the
    directory tree as it is. To the log it adds loader calls, then at
    most one call of the splitter, then at most one index build; the
    index is built only when the splitter returned, and from the chunks
    the splitter returned. *)
Theorem initialize_notes_calls (s : system X) :
  fst (initialize_notes X s) = Ok tt /\
  fs (snd (initialize_notes X s)) = fs s /\
  exists loads tail,
    calls (snd (initialize_notes X s)) = calls s ++ loads ++ tail /\
    forallb is_loader_call loads = true /\
    (tail = []
     \/ (exists raw e,
           tail = [SplitterCall raw] /\
           split_documents X (calls s ++ loads) raw = Raise e)
     \/ (exists raw docs,
           tail = [SplitterCall raw; IndexBuildCall docs] /\
           split_documents X (calls s ++ loads) raw = Ok docs)).
Proof.
  exact (initialize_notes_trace s).
Qed.

Lemma tail_no_model_calls (before loads tail : list event) :
  forallb is_loader_call loads = true ->
  (tail = [] \/ (exists raw, tail = [SplitterCall raw])
   \/ (exists raw docs, tail = [SplitterCall raw; IndexBuildCall docs])) ->
  generator_calls (before ++ loads ++ tail) = generator_calls before /\
  retriever_calls (before ++ loads ++ tail) = retriever_calls before.
Proof.
  intros Hl Ht. rewrite app_assoc.
  destruct (loader_calls_no_generator loads Hl before) as [G R].
  unfold generator_calls, retriever_calls in *.
  rewrite !(filter_app _ (before ++ loads) tail), !length_app, G, R.
  destruct Ht as [-> | [(raw & ->) | (raw & docs & ->)]]; simpl; split; lia.
Qed.

(** X12. Neither [initialize_notes] nor [__init__] ever calls the chat
    model or the retriever, whatever the documents and whether or not
    the initialization succeeds. *)
Theorem initialization_calls_no_model (s : system X) :
  generator_calls (calls (snd (initialize_notes X s))) = generator_calls (calls s) /\
  retriever_calls (calls (snd (initialize_notes X s))) = retriever_calls (calls s) /\
  generator_calls (calls (snd (NoteReader_init X s))) = generator_calls (calls s) /\
  retriever_calls (calls (snd (NoteReader_init X s))) = retriever_calls (calls s).
Proof.
  assert (G : forall s0 : system X,
            generator_calls (calls (snd (initialize_notes X s0))) =
              generator_calls (calls s0) /\
            retriever_calls (calls (snd (initialize_notes X s0))) =
              retriever_calls (calls s0)).
  { intros s0. destruct (initialize_notes_trace s0) as (_ & _ & loads & tail & C & L & T).
    rewrite C. apply tail_no_model_calls; [exact L|].
    destruct T as [T | [(raw & e & T & _) | (raw & docs & T & _)]]; eauto. }
  destruct (G s) as [G1 G2]. destruct (G (fresh_fields s)) as [G3 G4].
  repeat split; assumption.
Qed.

(** The fields after [initialize_notes]: all three set afresh, or all
    three as before. *)
Lemma initialize_notes_fields (s : system X) :
  (exists store d raw s1,
     load_any_notes X NOTES_PATH s = (Ok (d :: raw), s1) /\
     self (snd (initialize_notes X s)) =
       mkNoteReader (Some store) (Some (mkRetriever X store 4))
         (Some (mkRagChain X (mkRetriever X store 4)))
         (format_notes_for_display (d :: raw)))
  \/ (vectorstore (self (snd (initialize_notes X s))) = vectorstore (self s) /\
      retriever (self (snd (initialize_notes X s))) = retriever (self s) /\
      rag_chain (self (snd (initialize_notes X s))) = rag_chain (self s) /\
      (notes_content (self (snd (initialize_notes X s))) = NO_NOTES_MESSAGE \/
       exists e, notes_content (self (snd (initialize_notes X s))) =
                 "Error loading notes: " +:+ e)).
Proof.
  rewrite initialize_notes_unfold.
  pose proof (initialize_notes_body_cases X s) as C.
  pose proof (load_any_notes_frame X NOTES_PATH s) as F. simpl in F.
  destruct (initialize_notes_body X s) as [[[] | e] s'] eqn:B.
  - destruct (load_any_notes X NOTES_PATH s) as [[raw | e0] s1]; simpl in F;
      [|discriminate].
    destruct F as (Fs & _). destruct raw as [|d raw].
    + inversion C; subst. right. cbn [snd with_notes_content self vectorstore
        retriever rag_chain notes_content]. rewrite Fs. auto.
    + cbv zeta in C.
      destruct (split_documents X (calls s1) (d :: raw)); [|discriminate].
      destruct (FAISS_from_documents X _ _) as [store|]; [|discriminate].
      inversion C; subst. left. exists store, d, raw, s1. split; reflexivity.
  - destruct (initialize_notes_body_raises X _ _ _ B) as [Hs _].
    right. cbn [snd with_notes_content self vectorstore retriever rag_chain
      notes_content]. rewrite Hs. repeat split. right. exists e. reflexivity.
Qed.

(** X13. [initialize_notes] updates the three fields all or nothing: it
    either sets the store, a retriever with [k = 4] on that store and a
    chain on that retriever, with the display text of the documents
    loaded (not of the chunks); or it leaves the three exactly as they
    were and only overwrites [notes_content] with the "no notes" text or
    the error text. It never clears them: run again on an object that
    has a chain, a failed or empty initialization keeps the old chain. *)
Theorem initialize_notes_all_or_nothing (s : system X) :
  (exists store raw,
     raw <> [] /\
     self (snd (initialize_notes X s)) =
       mkNoteReader (Some store) (Some (mkRetriever X store 4))
         (Some (mkRagChain X (mkRetriever X store 4)))
         (format_notes_for_display raw))
  \/ (vectorstore (self (snd (initialize_notes X s))) = vectorstore (self s) /\
      retriever (self (snd (initialize_notes X s))) = retriever (self s) /\
      rag_chain (self (snd (initialize_notes X s))) = rag_chain (self s) /\
      (notes_content (self (snd (initialize_notes X s))) = NO_NOTES_MESSAGE \/
       exists e, notes_content (self (snd (initialize_notes X s))) =
                 "Error loading notes: " +:+ e)).
Proof.
  destruct (initialize_notes_fields s) as [(store & d & raw & s1 & _ & E) | K].
  - left. exists store, (d :: raw). split; [discriminate | exact E].
  - right. exact K.
Qed.

(** X14. An object built by [__init__] that has a chain is consistent:
    the chain is on the object's retriever, the retriever is on the
    object's store and asks for four chunks, the loader had returned at
    least one document, and [notes_content] is the display text of those
    documents. *)
Theorem ready_object_is_consistent (s : system X) (chain : RagChain X) :
  rag_chain (self (snd (NoteReader_init X s))) = Some chain ->
  exists store raw s1,
    load_any_notes X NOTES_PATH (fresh_fields s) = (Ok raw, s1) /\
    raw <> [] /\
    chain = mkRagChain X (mkRetriever X store 4) /\
    self (snd (NoteReader_init X s)) =
      mkNoteReader (Some store) (Some (chain_retriever X chain)) (Some chain)
        (format_notes_for_display raw).
Proof.
  change (NoteReader_init X s) with (initialize_notes X (fresh_fields s)).
  intros R.
  destruct (initialize_notes_fields (fresh_fields s))
    as [(store & d & raw & s1 & L & E) | (_ & _ & K & _)].
  - rewrite E in R. inversion R; subst chain.
    exists store, (d :: raw), s1.
    split; [exact L|]. split; [discriminate|]. split; [reflexivity | exact E].
  - rewrite K in R. discriminate R.
Qed.

(** The outcomes of a query against an object with a chain. *)
Lemma summarize_notes_with_chain (q : string) (s : system X) (chain : RagChain X) :
  rag_chain (self s) = Some chain ->
  let rt := chain_retriever X chain in
  let s1 := logged (RetrieverCall q (retriever_k X rt)) s in
  match similarity_search X (calls s) (retriever_store X rt) q (retriever_k X rt) with
  | Raise e =>
      summarize_notes X q s = (Ok ("Error processing your question: " +:+ e), s1)
  | Ok docs =>
      let prompt := RAG_PROMPT q (format_docs docs) in
      let s2 := logged (GeneratorCall prompt) s1 in
      match llm_invoke X (calls s1) prompt with
      | Ok answer => summarize_notes X q s = (Ok answer, s2)
      | Raise e =>
          summarize_notes X q s = (Ok ("Error processing your question: " +:+ e), s2)
      end
  end.
Proof.
  intros R. unfold summarize_notes, bind, get_self. rewrite R.
  unfold try_except, rag_chain_invoke, bind, external, logged. cbn [calls self fs].
  destruct (similarity_search X (calls s) _ q _) as [docs | e]; [|reflexivity].
  cbv zeta. destruct (llm_invoke X _ (RAG_PROMPT q (format_docs docs))); reflexivity.
Qed.

(** X15. A query against an object with a chain calls the retriever
    once. If the retriever raises, the chat model is not called and the
    answer is ["Error processing your question: "] followed by the
    reason. Otherwise the chat model is called once, with the template
    filled with the question and the formatted documents; its text is
    returned as it is, or the error text if it raises. Nothing else is
    logged and the object is not changed. *)
Theorem query_outcomes (q : string) (s : system X) (chain : RagChain X) :
  rag_chain (self s) = Some chain ->
  let rt := chain_retriever X chain in
  let s1 := logged (RetrieverCall q (retriever_k X rt)) s in
  match similarity_search X (calls s) (retriever_store X rt) q (retriever_k X rt) with
  | Raise e =>
      summarize_notes X q s = (Ok ("Error processing your question: " +:+ e), s1)
  | Ok docs =>
      let prompt := RAG_PROMPT q (format_docs docs) in
      let s2 := logged (GeneratorCall prompt) s1 in
      match llm_invoke X (calls s1) prompt with
      | Ok answer => summarize_notes X q s = (Ok answer, s2)
      | Raise e =>
          summarize_notes X q s = (Ok ("Error processing your question: " +:+ e), s2)
      end
  end.
Proof.
  exact (summarize_notes_with_chain q s chain).
Qed.

(** X16. When the retriever returns no chunk, the chat model is still
    asked, with the template filled with the question and an empty
    context: the query is not short-circuited. *)
Theorem query_with_no_hits (q : string) (s : system X) (chain : RagChain X) :
  rag_chain (self s) = Some chain ->
  similarity_search X (calls s) (retriever_store X (chain_retriever X chain)) q
                    (retriever_k X (chain_retriever X chain)) = Ok [] ->
  calls (snd (summarize_notes X q s)) =
    calls s ++ [RetrieverCall q (retriever_k X (chain_retriever X chain));
                GeneratorCall (RAG_PROMPT q "")].
Proof.
  intros R E. pose proof (summarize_notes_with_chain q s chain R) as C.
  cbv zeta in C. rewrite E in C.
  change (format_docs []) with "" in C.
  destruct (llm_invoke X _ (RAG_PROMPT q "")); rewrite C; simpl;
    rewrite <- app_assoc; reflexivity.
Qed.

End MoreProgramFacts.

Lemma query_outcomes_witness :
  summarize_notes services_up "What is the capital of France?" ready_system =
  (Ok "Paris. Sources: [SOURCE: a.md]",
   mkSystem (self ready_system) example_tree
     [RetrieverCall "What is the capital of France?" 4;
      GeneratorCall
        (RAG_PROMPT "What is the capital of France?"
           ("[SOURCE: a.md]" +:+ nl +:+ "Paris is the capital of France."))]).
Proof.
  exact (query_outcomes services_up "What is the capital of France?" ready_system _ eq_refl).
Defined.

Lemma ready_object_is_consistent_witness :
  exists store,
    vectorstore (self (snd (NoteReader_init services_up (boot services_up example_tree)))) =
      Some store /\
    retriever (self (snd (NoteReader_init services_up (boot services_up example_tree)))) =
      Some (mkRetriever services_up store 4).
Proof.
  destruct (ready_object_is_consistent services_up (boot services_up example_tree) _ eq_refl)
    as (store & raw & s1 & _ & _ & C & E).
  exists store. rewrite E. split; [reflexivity|].
  cbn [retriever]. rewrite C. reflexivity.
Defined.

Lemma query_with_no_hits_witness :
  calls (snd (summarize_notes services_up "Anything?" empty_index_system)) =
  [RetrieverCall "Anything?" 4; GeneratorCall (RAG_PROMPT "Anything?" "")].
Proof.
  exact (query_with_no_hits services_up "Anything?" empty_index_system _ eq_refl eq_refl).
Defined.

(** ** Start-up and the routes *)

Section RouteFacts.

Variable X : collaborators.

Lemma NoteReader_init_returns (s : system X) :
  exists s', NoteReader_init X s = (Ok tt, s') /\ fs s' = fs s.
Proof.
  change (NoteReader_init X s) with (initialize_notes X (fresh_fields s)).
  destruct (initialize_notes_trace X (fresh_fields s)) as (R & F & _).
  destruct (initialize_notes X (fresh_fields s)) as [r s']. simpl in *.
  exists s'. subst r. split; [reflexivity | exact F].
Qed.

Lemma startup_cases (s : system X) :
  match fs_lookup (fs s) NOTES_PATH with
  | Some File => startup X s = (Raise "[Errno 17] File exists: 'notes'", s)
  | Some Dir =>
      exists s', startup X s = (Ok tt, s') /\ fs s' = fs s
  | None =>
      exists s', startup X s = (Ok tt, s') /\ fs s' = fs s ++ [(NOTES_PATH, Dir)]
  end.
Proof.
  unfold startup, ensure_notes_dir, mkdir_parents_exist_ok, bind, get_fs.
  change (Path (notes_dir config)) with ["notes"].
  change NOTES_PATH with ["notes"].
  cbn [mkdir_from app].
  destruct (fs_lookup (fs s) ["notes"]) as [[|]|]; cbn [mkdir_from set_fs].
  - destruct (NoteReader_init_returns (mkSystem (self s) (fs s) (calls s)))
      as (s' & E & F).
    exists s'. split; [exact E | exact F].
  - reflexivity.
  - destruct (NoteReader_init_returns
                (mkSystem (self s) (fs s ++ [(["notes"], Dir)]) (calls s)))
      as (s' & E & F).
    exists s'. split; [exact E | exact F].
Qed.

(** X17. Start-up raises exactly when the notes path exists as a regular
    file; the exception is the ["File exists"] error of [mkdir], the
    state is untouched and no [NoteReader] is built. In every other case
    start-up completes. *)
Theorem startup_raises_iff (s : system X) :
  ((exists e s', startup X s = (Raise e, s')) <->
   fs_lookup (fs s) NOTES_PATH = Some File) /\
  (fs_lookup (fs s) NOTES_PATH = Some File ->
   startup X s = (Raise "[Errno 17] File exists: 'notes'", s)).
Proof.
  pose proof (startup_cases s) as C.
  destruct (fs_lookup (fs s) NOTES_PATH) as [[|]|].
  - destruct C as (s' & E & _). split; [|discriminate].
    rewrite E. split; [intros (e & s0 & H); discriminate H | discriminate].
  - split; [|intros _; exact C].
    split; [reflexivity | intros _; eauto].
  - destruct C as (s' & E & _). split; [|discriminate].
    rewrite E. split; [intros (e & s0 & H); discriminate H | discriminate].
Qed.

(** X18. Start-up never removes or changes an entry of the directory
    tree: whatever was there before is there afterwards, whether
    start-up completes or raises. *)
Theorem startup_keeps_entries (s : system X) (q : path) (n : node) :
  fs_lookup (fs s) q = Some n ->
  fs_lookup (fs (snd (startup X s))) q = Some n.
Proof.
  intros L. pose proof (startup_cases s) as C.
  destruct (fs_lookup (fs s) NOTES_PATH) as [[|]|].
  - destruct C as (s' & E & F). rewrite E. simpl. rewrite F. exact L.
  - rewrite C. exact L.
  - destruct C as (s' & E & F). rewrite E. simpl. rewrite F.
    apply fs_lookup_kept. exact L.
Qed.

Lemma chat_cases (body : request_body) (s : system X) :
  match body with
  | NotJson e => chat X body s = (Ok (mkResponse 500 [("error", e)]), s)
  | JsonNull =>
      chat X body s =
      (Ok (mkResponse 500 [("error", "'NoneType' object has no attribute 'get'")]), s)
  | JsonObject fields =>
      if String.eqb (dict_get fields "message" "") "" then
        chat X body s = (Ok (mkResponse 400 [("error", "No message provided")]), s)
      else
        exists answer s',
          summarize_notes X (dict_get fields "message" "") s = (Ok answer, s') /\
          chat X body s =
          (Ok (mkResponse 200 [("response", answer); ("timestamp", TIMESTAMP)]), s')
  end.
Proof.
  destruct body as [e | | fields]; try reflexivity.
  unfold chat, try_except, bind, message_of. cbn [ret].
  destruct (String.eqb (dict_get fields "message" "") ""); [reflexivity|].
  destruct (summarize_notes_cases X (dict_get fields "message" "") s)
    as (answer & s' & E & _).
  exists answer, s'. split; [exact E|]. rewrite E. reflexivity.
Qed.

(** X19. The chat route never raises: whatever the request body and the
    state, it returns a response with status 200, 400 or 500, and it
    changes neither the [NoteReader] object nor the directory tree. *)
Theorem chat_never_raises (body : request_body) (s : system X) :
  exists response s',
    chat X body s = (Ok response, s') /\
    (status response = 200 \/ status response = 400 \/ status response = 500) /\
    self s' = self s /\ fs s' = fs s.
Proof.
  pose proof (chat_cases body s) as C.
  destruct body as [e | | fields].
  - eexists _, _. split; [exact C|]. simpl. auto.
  - eexists _, _. split; [exact C|]. simpl. auto.
  - destruct (String.eqb (dict_get fields "message" "") "").
    + eexists _, _. split; [exact C|]. simpl. auto.
    + destruct C as (answer & s' & E & C).
      eexists _, _. split; [exact C|]. simpl. split; [auto|].
      destruct (summarize_notes_cases X (dict_get fields "message" "") s)
        as (a & s0 & E0 & Hs & _).
      rewrite E in E0. inversion E0; subst.
      split; [exact Hs|].
      destruct (rag_chain (self s)) as [chain|] eqn:R.
      * pose proof (summarize_notes_with_chain X (dict_get fields "message" "") s chain R)
          as W. cbv zeta in W.
        destruct (similarity_search X (calls s) _ _ _).
        -- destruct (llm_invoke X _ _); rewrite E in W; inversion W; reflexivity.
        -- rewrite E in W. inversion W. reflexivity.
      * rewrite (summarize_notes_without_chain X _ s R) in E.
        inversion E. reflexivity.
Qed.

(** X20. A request whose [message] is a non-empty string is answered
    with status 200 and the text [summarize_notes] returns for that
    message, together with the fixed timestamp. This holds also when the
    query failed inside: the error text travels with status 200. In
    particular, without a chain the response is the "not properly
    initialized" advisory, with status 200 and no external call. *)
Theorem chat_answers_with_200 (fields : list (string * string)) (s : system X) :
  dict_get fields "message" "" <> "" ->
  (exists answer s',
     summarize_notes X (dict_get fields "message" "") s = (Ok answer, s') /\
     chat X (JsonObject fields) s =
     (Ok (mkResponse 200 [("response", answer); ("timestamp", TIMESTAMP)]), s')) /\
  (rag_chain (self s) = None ->
   chat X (JsonObject fields) s =
   (Ok (mkResponse 200 [("response", NOT_INITIALIZED_MESSAGE); ("timestamp", TIMESTAMP)]),
    s)).
Proof.
  intros N. pose proof (chat_cases (JsonObject fields) s) as C. cbv beta iota in C.
  apply String.eqb_neq in N. rewrite N in C.
  split; [exact C|]. intros R. destruct C as (answer & s' & E & C).
  rewrite (summarize_notes_without_chain X _ s R) in E. inversion E; subst.
  exact C.
Qed.

(** X21. A request without a usable message is turned down without any
    query and without any change of state: status 400 when the body is
    an object whose [message] is missing or empty, status 500 with the
    text of the exception when the body is not JSON or is [null]. *)
Theorem chat_rejections (s : system X) :
  (forall fields,
     dict_get fields "message" "" = "" ->
     chat X (JsonObject fields) s =
     (Ok (mkResponse 400 [("error", "No message provided")]), s)) /\
  (forall fields,
     key_absent fields "message" ->
     chat X (JsonObject fields) s =
     (Ok (mkResponse 400 [("error", "No message provided")]), s)) /\
  (forall e, chat X (NotJson e) s = (Ok (mkResponse 500 [("error", e)]), s)) /\
  chat X JsonNull s =
    (Ok (mkResponse 500 [("error", "'NoneType' object has no attribute 'get'")]), s).
Proof.
  assert (E400 : forall fields,
            dict_get fields "message" "" = "" ->
            chat X (JsonObject fields) s =
            (Ok (mkResponse 400 [("error", "No message provided")]), s)).
  { intros fields E. pose proof (chat_cases (JsonObject fields) s) as C.
    cbv beta iota in C. rewrite E in C. exact C. }
  split; [exact E400|]. split; [|split].
  - intros fields A. apply E400. apply dict_get_absent. exact A.
  - intros e. exact (chat_cases (NotJson e) s).
  - exact (chat_cases JsonNull s).
Qed.

(** X22. The notes route always answers with status 200 and leaves the
    state as it is. After [__init__] its text is the "no notes" advisory,
    or ["Error loading notes: "] followed by the reason, or the display
    text of the documents that were loaded: a failed initialization is
    reported here, with status 200. *)
Theorem get_notes_reports_initialization (s : system X) :
  (forall s0 : system X,
     get_notes X s0 =
     (Ok (mkResponse 200 [("notes", notes_content (self s0)); ("timestamp", TIMESTAMP)]),
      s0)) /\
  (notes_content (self (snd (NoteReader_init X s))) = NO_NOTES_MESSAGE
   \/ (exists e, notes_content (self (snd (NoteReader_init X s))) =
                 "Error loading notes: " +:+ e)
   \/ (exists raw, raw <> [] /\
                   notes_content (self (snd (NoteReader_init X s))) =
                   format_notes_for_display raw)).
Proof.
  split; [reflexivity|].
  change (NoteReader_init X s) with (initialize_notes X (fresh_fields s)).
  destruct (initialize_notes_fields X (fresh_fields s))
    as [(store & d & raw & s1 & _ & E) | (_ & _ & _ & [K | K])].
  - right; right. exists (d :: raw). rewrite E. split; [discriminate | reflexivity].
  - left. exact K.
  - right; left. exact K.
Qed.

End RouteFacts.

Lemma startup_raises_iff_witness :
  startup services_up (boot services_up notes_is_a_file) =
  (Raise "[Errno 17] File exists: 'notes'", boot services_up notes_is_a_file).
Proof.
  apply (proj2 (startup_raises_iff services_up (boot services_up notes_is_a_file))).
  reflexivity.
Defined.

Lemma startup_keeps_entries_witness :
  fs_lookup (fs (snd (startup services_up (boot services_up example_tree))))
            ["notes"; "a.md"] = Some File.
Proof.
  apply (startup_keeps_entries services_up (boot services_up example_tree)).
  reflexivity.
Defined.

Lemma chat_answers_with_200_witness :
  chat services_up (JsonObject [("message", "What is the capital of France?")])
       (boot services_up example_tree) =
  (Ok (mkResponse 200 [("response", NOT_INITIALIZED_MESSAGE); ("timestamp", TIMESTAMP)]),
   boot services_up example_tree).
Proof.
  apply (proj2 (chat_answers_with_200 services_up
                  [("message", "What is the capital of France?")]
                  (boot services_up example_tree)
                  ltac:(discriminate))).
  reflexivity.
Defined.

Lemma chat_rejections_witness :
  chat services_up (JsonObject [("text", "hello")]) ready_system =
  (Ok (mkResponse 400 [("error", "No message provided")]), ready_system) /\
  chat services_up (JsonObject [("message", "")]) ready_system =
  (Ok (mkResponse 400 [("error", "No message provided")]), ready_system).
Proof.
  destruct (chat_rejections services_up ready_system) as (E & A & _).
  split.
  - apply A. intros v [H | []]. discriminate H.
  - apply E. reflexivity.
Defined.

Lemma load_any_notes_opens_in_order_witness :
  calls (snd (load_any_notes services_up ["notes"] (boot services_up example_tree))) =
  [LoaderCall TextLoader "notes/a.md"; LoaderCall TextLoader "notes/c.txt";
   LoaderCall PyPDFLoader "notes/b.pdf"].
Proof.
  destruct (load_any_notes_opens_in_order services_up ["notes"]
              (boot services_up example_tree)) as (_ & _ & n & _ & C & K).
  rewrite C. rewrite (K _ eq_refl). reflexivity.
Defined.

(** X23. When the notes path is not a directory of the tree (it is
    missing, or it is a regular file), [load_any_notes] returns the
    empty list: it raises nothing, opens nothing and changes nothing. *)
Theorem load_any_notes_without_directory (X : collaborators) (dir : path) (s : system X) :
  is_dir (fs s) dir = false ->
  load_any_notes X dir s = (Ok [], s).
Proof.
  intros D. apply load_any_notes_empty. intros pattern.
  unfold rglob. rewrite D. reflexivity.
Qed.

Lemma load_any_notes_without_directory_witness :
  load_any_notes services_up ["notes"] (boot services_up notes_is_a_file) =
  (Ok [], boot services_up notes_is_a_file).
Proof.
  apply (load_any_notes_without_directory services_up ["notes"]
           (boot services_up notes_is_a_file)).
  reflexivity.
Defined.

(** ** The files the loader opens *)

Lemma firstn_subset {A} (n : nat) (l : list A) x : In x (firstn n l) -> In x l.
Proof.
  revert l. induction n as [|n IH]; intros [|a l] H; simpl in *; try contradiction.
  destruct H as [H | H]; [left; exact H | right; apply IH; exact H].
Qed.


(** X1. Every file [load_any_notes] opens is an entry of the tree below
    the notes directory, at any depth, and is given to a loader of its
    extension: [.md] and [.txt] to the text loader, [.pdf] to the PDF
    loader, [.docx] to the Word loader. When [load_any_notes] returns
    normally it has opened every such entry. *)
Theorem load_any_notes_opens_matching_files
  (X : collaborators) (dir : path) (s : system X) :
  exists files,
    calls (snd (load_any_notes X dir s)) = calls s ++ map loader_event files /\
    (forall k p,
       In (k, p) files ->
       is_dir (fs s) dir = true /\ (exists n, In (p, n) (fs s)) /\
       strictly_under dir p = true /\
       exists stem suffix,
         In suffix (loader_suffixes k) /\ last p "" = stem +:+ suffix) /\
    (forall docs,
       fst (load_any_notes X dir s) = Ok docs ->
       forall k p stem suffix,
         is_dir (fs s) dir = true -> (exists n, In (p, n) (fs s)) ->
         strictly_under dir p = true ->
         In suffix (loader_suffixes k) -> last p "" = stem +:+ suffix ->
         In (k, p) files).
Proof.
  rewrite load_any_notes_as_files.
  destruct (load_files_log X (note_files (fs s) dir) [] s) as (_ & _ & n & _ & C & K).
  exists (firstn n (note_files (fs s) dir)). split; [exact C|]. split.
  - intros k p I. apply note_files_iff. apply (firstn_subset n). exact I.
  - intros docs Hd k p stem suffix D I U Hs Hl.
    rewrite (K docs Hd), firstn_all. apply note_files_iff.
    repeat split; eauto.
Qed.

Lemma load_any_notes_opens_matching_files_witness :
  exists files,
    calls (snd (load_any_notes services_up ["notes"] (boot services_up example_tree))) =
      map loader_event files /\
    In (TextLoader, ["notes"; "c.txt"]) files /\
    ~ In (TextLoader, ["notes"; "b.pdf"]) files.
Proof.
  destruct (load_any_notes_opens_matching_files services_up ["notes"]
              (boot services_up example_tree)) as (files & C & Only & All).
  exists files. split; [exact C|]. split.
  - apply (All _ eq_refl TextLoader ["notes"; "c.txt"] "c" ".txt");
      try reflexivity.
    + exists File. simpl. tauto.
    + right; left; reflexivity.
  - intros I. destruct (Only _ _ I) as (_ & _ & _ & stem & suffix & Hs & S).
    apply (f_equal (fun name => str_ends_with suffix name)) in S.
    assert (E : str_ends_with suffix (stem +:+ suffix) = true)
      by (apply str_ends_with_iff; exists stem; reflexivity).
    rewrite E in S.
    destruct Hs as [<- | [<- | []]]; discriminate S.
Defined.



(** ** The invariant does not survive a second initialization *)

